(** * dmsg/noise: the secure channel of the dmsg messaging system

    A shallow embedding of [noise.go] (package [noise]): the [Noise] object,
    the handshake drivers [HandshakeMessage] and [ProcessMessage], the
    accessor [RemoteStatic] and the transport operations [EncryptUnsafe]
    and [DecryptUnsafe], together with the properties of the sequence
    counters that the design document states for them.

    Conventions.
    - A [uint64] is a [Z] with its wrap-around modulo [2^64] written out.
    - A [[]byte] is a [list byte]; a slice that may be [nil] is an
      [option (list byte)].
    - A Go [error] is an [option error] ([None] is [nil]).
    - A method with a pointer receiver takes the object and returns the
      updated object next to its outcome; a panic is an outcome. *)

From Stdlib Require Import ZArith List Lia String Bool.
From coqutil Require Import Byte.
Import ListNotations.
Local Open Scope Z_scope.

(** ** Machine integers and byte slices *)

Module Uint64.

Definition modulus : Z := 2 ^ 64.

Definition wrap (z : Z) : Z := z mod modulus.

Definition in_range (z : Z) : Prop := 0 <= z < modulus.

End Uint64.

Definition bytes := list byte.

(** [encoding/binary]: [binary.BigEndian.PutUint64(b, v)] on an 8-byte
    buffer, and [binary.BigEndian.Uint64(b)]. The Go functions index
    [b[7]] first and panic on a shorter slice ([None] here). *)
Definition PutUint64 (v : Z) : bytes :=
  [ byte.of_Z (Z.shiftr v 56); byte.of_Z (Z.shiftr v 48);
    byte.of_Z (Z.shiftr v 40); byte.of_Z (Z.shiftr v 32);
    byte.of_Z (Z.shiftr v 24); byte.of_Z (Z.shiftr v 16);
    byte.of_Z (Z.shiftr v 8);  byte.of_Z v ].

Definition Uint64 (b : bytes) : option Z :=
  match b with
  | b0 :: b1 :: b2 :: b3 :: b4 :: b5 :: b6 :: b7 :: _ =>
      Some (Z.lor (byte.unsigned b7)
           (Z.lor (Z.shiftl (byte.unsigned b6) 8)
           (Z.lor (Z.shiftl (byte.unsigned b5) 16)
           (Z.lor (Z.shiftl (byte.unsigned b4) 24)
           (Z.lor (Z.shiftl (byte.unsigned b3) 32)
           (Z.lor (Z.shiftl (byte.unsigned b2) 40)
           (Z.lor (Z.shiftl (byte.unsigned b1) 48)
                  (Z.shiftl (byte.unsigned b0) 56))))))))
  | _ => None
  end.

(** [sync/atomic] on a [uint64] cell, for one goroutine: an operation maps
    the cell's content to its new content and the value it returns. *)
Definition AddUint64 (cell delta : Z) : Z * Z :=
  let new := Uint64.wrap (cell + delta) in (new, new).

Definition CompareAndSwapUint64 (cell old new : Z) : Z * bool :=
  if cell =? old then (new, true) else (cell, false).

(** ** Errors and panics *)

Definition error := string.

Inductive panic_value : Type :=
| PanicString (msg : string)      (* panic("...") *)
| PanicError (err : error)        (* panic(err) *)
| PanicRuntime (msg : string).    (* nil dereference, index out of range *)

Inductive outcome (A : Type) : Type :=
| Returns (a : A)
| Panics (p : panic_value).
Arguments Returns {A} a.
Arguments Panics {A} p.

Definition nil_dereference : panic_value :=
  PanicRuntime "invalid memory address or nil pointer dereference".

Definition index_out_of_range : panic_value :=
  PanicRuntime "index out of range".

(** ** The packages [noise.go] imports *)

(** [github.com/flynn/noise]: the tokens and patterns of the handshake. *)
Inductive MessagePattern : Type :=
| MessagePatternS | MessagePatternE
| MessagePatternDHEE | MessagePatternDHES
| MessagePatternDHSE | MessagePatternDHSS
| MessagePatternPSK.

Record HandshakePattern : Type := {
  Name : string;
  InitiatorPreMessages : list MessagePattern;
  ResponderPreMessages : list MessagePattern;
  Messages : list (list MessagePattern)
}.

Definition HandshakeKK : HandshakePattern := {|
  Name := "KK";
  InitiatorPreMessages := [MessagePatternS];
  ResponderPreMessages := [MessagePatternS];
  Messages := [ [MessagePatternE; MessagePatternDHES; MessagePatternDHSS];
                [MessagePatternE; MessagePatternDHEE; MessagePatternDHSE] ]
|}.

Definition HandshakeXK : HandshakePattern := {|
  Name := "XK";
  InitiatorPreMessages := [];
  ResponderPreMessages := [MessagePatternS];
  Messages := [ [MessagePatternE; MessagePatternDHES];
                [MessagePatternE; MessagePatternDHEE];
                [MessagePatternS; MessagePatternDHSE] ]
|}.

(** What [WriteMessage] and [ReadMessage] hand back: the output slice, the
    two cipher states (both [nil] before the last message) and the error. *)
Record message_result (CipherState : Type) : Type := {
  mr_out : bytes;
  mr_cs1 : option CipherState;
  mr_cs2 : option CipherState;
  mr_err : option error
}.
Arguments mr_out {CipherState} _.
Arguments mr_cs1 {CipherState} _.
Arguments mr_cs2 {CipherState} _.
Arguments mr_err {CipherState} _.

(** The part of [github.com/flynn/noise] that [noise.go] calls. The package
    is an external dependency, so its operations are the fields of an
    interface; a [*HandshakeState] is threaded through the calls that
    advance it. [Encrypt] and [Decrypt] are the methods of the [Cipher]
    interface, with arguments [out], [n], [ad] and the text. *)
Class NoiseLib : Type := {
  Cipher : Type;
  CipherState : Type;
  HandshakeState : Type;
  Encrypt : Cipher -> bytes -> Z -> bytes -> bytes -> bytes;
  Decrypt : Cipher -> bytes -> Z -> bytes -> bytes -> option bytes * option error;
  CipherState_Cipher : CipherState -> Cipher;
  NewHandshakeState :
    HandshakePattern -> bool -> bytes -> bytes -> option bytes ->
    HandshakeState + error;
  MessageIndex : HandshakeState -> Z;
  PeerStatic : HandshakeState -> bytes;
  WriteMessage :
    HandshakeState -> bytes -> bytes -> HandshakeState * message_result CipherState;
  ReadMessage :
    HandshakeState -> bytes -> bytes -> HandshakeState * message_result CipherState
}.

(** The part of [github.com/SkycoinProject/dmsg/cipher] that [noise.go]
    calls: the key types, their bytes, the null test and [NewPubKey]. *)
Class CipherPkg : Type := {
  PubKey : Type;
  SecKey : Type;
  PubKey_bytes : PubKey -> bytes;
  SecKey_bytes : SecKey -> bytes;
  PubKey_Null : PubKey -> bool;
  NewPubKey : bytes -> PubKey * option error
}.

(** ** [noise.go] *)

Section NoiseModel.

Context {K : CipherPkg} {L : NoiseLib}.

Definition nonceSize : nat := 8.

Record Config : Type := {
  LocalPK : PubKey;
  LocalSK : SecKey;
  RemotePK : PubKey;
  Initiator : bool
}.

Record Noise : Type := {
  pk : PubKey;
  sk : SecKey;
  init : bool;
  pattern : HandshakePattern;
  hs : HandshakeState;
  enc : option CipherState;
  dec : option CipherState;
  encNonce : Z;
  decNonce : Z
}.

Definition set_hs (ns : Noise) (h : HandshakeState) : Noise :=
  {| pk := pk ns; sk := sk ns; init := init ns; pattern := pattern ns;
     hs := h; enc := enc ns; dec := dec ns;
     encNonce := encNonce ns; decNonce := decNonce ns |}.

Definition set_enc (ns : Noise) (c : option CipherState) : Noise :=
  {| pk := pk ns; sk := sk ns; init := init ns; pattern := pattern ns;
     hs := hs ns; enc := c; dec := dec ns;
     encNonce := encNonce ns; decNonce := decNonce ns |}.

Definition set_dec (ns : Noise) (c : option CipherState) : Noise :=
  {| pk := pk ns; sk := sk ns; init := init ns; pattern := pattern ns;
     hs := hs ns; enc := enc ns; dec := c;
     encNonce := encNonce ns; decNonce := decNonce ns |}.

Definition set_encNonce (ns : Noise) (n : Z) : Noise :=
  {| pk := pk ns; sk := sk ns; init := init ns; pattern := pattern ns;
     hs := hs ns; enc := enc ns; dec := dec ns;
     encNonce := n; decNonce := decNonce ns |}.

Definition set_decNonce (ns : Noise) (n : Z) : Noise :=
  {| pk := pk ns; sk := sk ns; init := init ns; pattern := pattern ns;
     hs := hs ns; enc := enc ns; dec := dec ns;
     encNonce := encNonce ns; decNonce := n |}.

(** [New]: the peer's static key is passed on only when it is not null;
    the cipher states start [nil] and both counters start at zero. *)
Definition New (pat : HandshakePattern) (config : Config)
  : option Noise * option error :=
  let peerStatic :=
    if negb (PubKey_Null (RemotePK config))
    then Some (PubKey_bytes (RemotePK config)) else None in
  match NewHandshakeState pat (Initiator config)
          (PubKey_bytes (LocalPK config)) (SecKey_bytes (LocalSK config))
          peerStatic with
  | inr err => (None, Some err)
  | inl h =>
      (Some {| pk := LocalPK config; sk := LocalSK config;
               init := Initiator config; pattern := pat; hs := h;
               enc := None; dec := None; encNonce := 0; decNonce := 0 |},
       None)
  end.

Definition KKAndSecp256k1 (config : Config) := New HandshakeKK config.

Definition XKAndSecp256k1 (config : Config) := New HandshakeXK config.

(** [len(ns.pattern.Messages)-1], an [int]. *)
Definition last_message_index (ns : Noise) : Z :=
  Z.of_nat (List.length (Messages (pattern ns))) - 1.

(** [HandshakeMessage]: before the last message the cipher states that
    [WriteMessage] returns are dropped; otherwise they are assigned, in the
    order [ns.dec, ns.enc]. *)
Definition HandshakeMessage (ns : Noise) : Noise * (bytes * option error) :=
  if MessageIndex (hs ns) <? last_message_index ns then
    let (h, r) := WriteMessage (hs ns) [] [] in
    (set_hs ns h, (mr_out r, mr_err r))
  else
    let (h, r) := WriteMessage (hs ns) [] [] in
    (set_enc (set_dec (set_hs ns h) (mr_cs1 r)) (mr_cs2 r),
     (mr_out r, mr_err r)).

(** [ProcessMessage]: the same with [ReadMessage], assigned in the order
    [ns.enc, ns.dec]. *)
Definition ProcessMessage (ns : Noise) (msg : bytes) : Noise * option error :=
  if MessageIndex (hs ns) <? last_message_index ns then
    let (h, r) := ReadMessage (hs ns) [] msg in
    (set_hs ns h, mr_err r)
  else
    let (h, r) := ReadMessage (hs ns) [] msg in
    (set_dec (set_enc (set_hs ns h) (mr_cs1 r)) (mr_cs2 r), mr_err r).

Definition LocalStatic (ns : Noise) : PubKey := pk ns.

(** [RemoteStatic]: its only result is a [cipher.PubKey]; an error from
    [NewPubKey] is passed to [panic]. *)
Definition RemoteStatic (ns : Noise) : outcome PubKey :=
  let (key, err) := NewPubKey (PeerStatic (hs ns)) in
  match err with
  | Some e => Panics (PanicError e)
  | None => Returns key
  end.

(** [EncryptUnsafe]: the counter is incremented before [ns.enc] is
    dereferenced, so the increment stays when [ns.enc] is [nil]. *)
Definition EncryptUnsafe (ns : Noise) (plaintext : bytes)
  : Noise * outcome bytes :=
  let (cell, nonce) := AddUint64 (encNonce ns) 1 in
  let ns := set_encNonce ns cell in
  let buf := PutUint64 nonce in
  match enc ns with
  | None => (ns, Panics nil_dereference)
  | Some cs =>
      (ns, Returns (buf ++ Encrypt (CipherState_Cipher cs) [] nonce [] plaintext))
  end.

Definition short_ciphertext : string :=
  "noise decrypt unsafe: cipher text cannot be less than 8 bytes".

(** [DecryptUnsafe]: the result is Go's pair of a slice and an error;
    [(Some [], None)] is the empty slice of the first branch and
    [(None, None)] the [nil, nil] of a rejected message. The warning that
    branch writes to the package logger is not part of the channel and is
    left out. *)
Definition DecryptUnsafe (ns : Noise) (ciphertext : bytes)
  : Noise * outcome (option bytes * option error) :=
  if (List.length ciphertext =? 0)%nat then
    (ns, Returns (Some [], None))
  else if (List.length ciphertext <? nonceSize)%nat then
    (ns, Panics (PanicString short_ciphertext))
  else
    match Uint64 (firstn nonceSize ciphertext) with
    | None => (ns, Panics index_out_of_range)
    | Some recvSeq =>
        let (cell, added) := AddUint64 (decNonce ns) 1 in
        let lastSeq := Uint64.wrap (added - 1) in
        let ns := set_decNonce ns cell in
        if recvSeq <=? lastSeq then
          (ns, Returns (None, None))
        else
          let (cell, _) := CompareAndSwapUint64 (decNonce ns) lastSeq recvSeq in
          let ns := set_decNonce ns cell in
          match dec ns with
          | None => (ns, Panics nil_dereference)
          | Some cs =>
              (ns, Returns (Decrypt (CipherState_Cipher cs) [] recvSeq []
                              (skipn nonceSize ciphertext)))
          end
    end.

Definition HandshakeFinished (ns : Noise) : bool :=
  MessageIndex (hs ns) =? Z.of_nat (List.length (Messages (pattern ns))).

(** The shape [DecryptUnsafe] is shown to have on an input of eight bytes
    or more ([DecryptUnsafe_long]): the counter cell goes up by one
    whatever happens next, and the message is handed to the cipher exactly
    when its counter exceeds the old cell. *)
Definition decrypt_long (ns : Noise) (recvSeq : Z) (payload : bytes)
  : Noise * outcome (option bytes * option error) :=
  let ns' := set_decNonce ns (Uint64.wrap (decNonce ns + 1)) in
  if recvSeq <=? Uint64.wrap (Uint64.wrap (decNonce ns + 1) - 1) then
    (ns', Returns (None, None))
  else
    match dec ns with
    | None => (ns', Panics nil_dereference)
    | Some cs =>
        (ns', Returns (Decrypt (CipherState_Cipher cs) [] recvSeq [] payload))
    end.

(** *** Runs of calls *)

(** Consecutive [EncryptUnsafe] calls, one per plaintext, with the value
    each call returned. *)
Fixpoint encrypt_all (ns : Noise) (plaintexts : list bytes)
  : Noise * list (outcome bytes) :=
  match plaintexts with
  | [] => (ns, [])
  | p :: rest =>
      let (ns1, o) := EncryptUnsafe ns p in
      let (ns2, os) := encrypt_all ns1 rest in
      (ns2, o :: os)
  end.

(** Consecutive [DecryptUnsafe] calls, one per received message. *)
Fixpoint decrypt_all (ns : Noise) (messages : list bytes)
  : Noise * list (outcome (option bytes * option error)) :=
  match messages with
  | [] => (ns, [])
  | m :: rest =>
      let (ns1, o) := DecryptUnsafe ns m in
      let (ns2, os) := decrypt_all ns1 rest in
      (ns2, o :: os)
  end.

(** The messages that a run of [EncryptUnsafe] calls returned. *)
Definition returned (os : list (outcome bytes)) : list bytes :=
  flat_map (fun o => match o with Returns m => [m] | Panics _ => [] end) os.

(** The counter a transport message carries in its first eight bytes. *)
Definition embedded_counter (message : bytes) : option Z :=
  Uint64 (firstn nonceSize message).

(** The state of each direction, and the fields neither transport
    operation is concerned with. *)
Definition send_side (ns : Noise) : Z * option CipherState :=
  (encNonce ns, enc ns).

Definition receive_side (ns : Noise) : Z * option CipherState :=
  (decNonce ns, dec ns).

Definition fixed_part (ns : Noise)
  : PubKey * SecKey * bool * HandshakePattern * HandshakeState :=
  (pk ns, sk ns, init ns, pattern ns, hs ns).

(** *** Runs of handshake calls *)

Inductive handshake_call : Type :=
| Produce                 (* ns.HandshakeMessage() *)
| Consume (msg : bytes).  (* ns.ProcessMessage(msg) *)

Definition handshake_step (ns : Noise) (c : handshake_call) : Noise :=
  match c with
  | Produce => fst (HandshakeMessage ns)
  | Consume msg => fst (ProcessMessage ns msg)
  end.

Definition handshake_run (ns : Noise) (calls : list handshake_call) : Noise :=
  fold_left handshake_step calls ns.

(** An input that [DecryptUnsafe] takes past its length checks, and the
    inputs on which it does not panic for their length. *)
Definition framed (m : bytes) : bool := (nonceSize <=? List.length m)%nat.

Definition empty_or_framed (m : bytes) : Prop :=
  List.length m = 0%nat \/ (8 <= List.length m)%nat.

(** *** The peer's key in the handshake state *)

(** The handshake state holds the bytes of [key] as the peer's static key,
    or holds none ([PeerStatic] returns [nil]). *)
Definition holds_peer_key (ns : Noise) (key : PubKey) : Prop :=
  PeerStatic (hs ns) = PubKey_bytes key.

Definition holds_no_peer_key (ns : Noise) : Prop :=
  PeerStatic (hs ns) = [].

(** [NewPubKey] makes [key] again of the bytes of [key]. *)
Definition well_formed_key (key : PubKey) : Prop :=
  NewPubKey (PubKey_bytes key) = (key, None).

(** A handshake state starts with the peer key its configuration gave it,
    and with none when the configuration gave none. *)
Definition keeps_given_peer_key : Prop :=
  forall pat initiator public private peer h,
    NewHandshakeState pat initiator public private peer = inl h ->
    PeerStatic h = match peer with Some b => b | None => [] end.

(** What Go's [append] to a [nil] slice gives when [p] is appended: [nil]
    again when [p] is empty. A cipher that decrypts into [out = nil]
    returns its plaintext this way. *)
Definition appended_to_nil (p : bytes) : option bytes :=
  match p with
  | [] => None
  | _ :: _ => Some p
  end.

End NoiseModel.

(** ** Stand-ins for the imported packages

    Small executable instances of the two interfaces, used to run the
    model on concrete channels. The cipher keeps the text and appends a
    one-byte tag made from the key and the nonce; the handshake state
    counts messages and hands out the keys [(k1, k2)] with the last one. *)

Module Standin.

Definition tag (key n : Z) : byte := byte.of_Z (key + n).

Definition seal (key : Z) (out : bytes) (n : Z) (ad text : bytes) : bytes :=
  out ++ text ++ [tag key n].

Definition open (key : Z) (out : bytes) (n : Z) (ad text : bytes)
  : option bytes * option error :=
  match rev text with
  | t :: body =>
      if Byte.eqb t (tag key n) then (Some (out ++ rev body), None)
      else (None, Some "message authentication failed"%string)
  | [] => (None, Some "message authentication failed"%string)
  end.

Record handshake : Type := {
  hs_index : Z;
  hs_messages : Z;
  hs_peer : bytes;
  hs_keys : Z * Z
}.

Definition advance (h : handshake) : handshake :=
  {| hs_index := hs_index h + 1; hs_messages := hs_messages h;
     hs_peer := hs_peer h; hs_keys := hs_keys h |}.

Definition step (h : handshake) (out text : bytes)
  : handshake * message_result Z :=
  if hs_messages h <=? hs_index h then
    (h, {| mr_out := []; mr_cs1 := None; mr_cs2 := None;
           mr_err := Some "noise: no handshake messages left"%string |})
  else if hs_index h =? hs_messages h - 1 then
    (advance h, {| mr_out := out; mr_cs1 := Some (fst (hs_keys h));
                   mr_cs2 := Some (snd (hs_keys h)); mr_err := None |})
  else
    (advance h, {| mr_out := out; mr_cs1 := None; mr_cs2 := None;
                   mr_err := None |}).

Definition start (pat : HandshakePattern) (initiator : bool)
    (public private : bytes) (peer : option bytes) : handshake + error :=
  inl {| hs_index := 0; hs_messages := Z.of_nat (List.length (Messages pat));
         hs_peer := match peer with Some p => p | None => [] end;
         hs_keys := (7, 9) |}.

#[export] Instance lib : NoiseLib := {|
  Cipher := Z;
  CipherState := Z;
  HandshakeState := handshake;
  Encrypt := seal;
  Decrypt := open;
  CipherState_Cipher := fun k => k;
  NewHandshakeState := start;
  MessageIndex := hs_index;
  PeerStatic := hs_peer;
  WriteMessage := step;
  ReadMessage := step
|}.

Definition pubkey_length : nat := 33.

(** Modelled from the spec: [cipher.NewPubKey] of the [dmsg/cipher] package
    is not among the sources. The design document makes a public key an
    opaque fixed-length value, so the stand-in accepts the slices of that
    length (33 bytes, a compressed secp256k1 point) and rejects the others,
    the empty slice of an unset peer key among them. *)
Definition new_pubkey (b : bytes) : bytes * option error :=
  if (List.length b =? pubkey_length)%nat then (b, None)
  else ([], Some "Invalid public key length"%string).

#[export] Instance keys : CipherPkg := {|
  PubKey := bytes;
  SecKey := bytes;
  PubKey_bytes := fun k => k;
  SecKey_bytes := fun k => k;
  PubKey_Null := fun k => forallb (Byte.eqb Byte.x00) k;
  NewPubKey := new_pubkey
|}.

Definition local_key : bytes := repeat Byte.x02 33.

Definition remote_key : bytes := repeat Byte.x03 33.

Definition secret_key : bytes := repeat Byte.x01 32.

(** A channel of the given role on the pattern [pat] whose handshake is at
    message [index], with the given cipher states and counters. *)
Definition channel (initiator : bool) (pat : HandshakePattern) (index : Z)
    (e d : option Z) (en dn : Z) : Noise :=
  {| pk := if initiator then local_key else remote_key;
     sk := secret_key; init := initiator; pattern := pat;
     hs := {| hs_index := index;
              hs_messages := Z.of_nat (List.length (Messages pat));
              hs_peer := if initiator then remote_key else local_key;
              hs_keys := (7, 9) |};
     enc := e; dec := d; encNonce := en; decNonce := dn |}.

(** The two ends after a KK handshake, counters at zero: what one end
    encrypts with, the other decrypts with. *)
Definition sender : Noise := channel true HandshakeKK 2 (Some 7) (Some 9) 0 0.

Definition receiver : Noise := channel false HandshakeKK 2 (Some 9) (Some 7) 0 0.

Definition config (initiator : bool) : Config :=
  {| LocalPK := if initiator then local_key else remote_key;
     LocalSK := secret_key;
     RemotePK := if initiator then remote_key else local_key;
     Initiator := initiator |}.

(** The KK handshake driven through the interface: the initiator writes
    the first message and reads the second, the responder the reverse. *)
Definition handshake_KK (initiator : bool) : option Noise :=
  match KKAndSecp256k1 (config initiator) with
  | (Some ns, _) =>
      if initiator then
        let (ns1, _) := HandshakeMessage ns in
        let (ns2, _) := ProcessMessage ns1 [] in Some ns2
      else
        let (ns1, _) := ProcessMessage ns [] in
        let (ns2, _) := HandshakeMessage ns1 in Some ns2
  | (None, _) => None
  end.

(** A responder on XK that was given no remote key. *)
Definition unpinned_config : Config :=
  {| LocalPK := remote_key; LocalSK := secret_key;
     RemotePK := repeat Byte.x00 33; Initiator := false |}.

Definition text (s : string) : bytes := list_byte_of_string s.

(** The channel [XKAndSecp256k1 unpinned_config] builds: no message yet,
    no peer key. *)
Definition unpinned : Noise :=
  {| pk := remote_key; sk := secret_key; init := false; pattern := HandshakeXK;
     hs := {| hs_index := 0; hs_messages := 3; hs_peer := []; hs_keys := (7, 9) |};
     enc := None; dec := None; encNonce := 0; decNonce := 0 |}.

(** Five plaintexts and the five messages the sender makes of them;
    [message n] is the one that carries counter [n]. *)
Definition plaintexts : list bytes :=
  map text ["a"; "b"; "c"; "d"; "e"]%string.

Definition sent : list bytes := returned (snd (encrypt_all sender plaintexts)).

Definition message (n : nat) : bytes := nth (n - 1) sent [].

(** The initiator as [KKAndSecp256k1 (config true)] builds it. *)
Definition fresh_initiator : Noise := channel true HandshakeKK 0 None None 0 0.

(** The sender with its send counter at the top of the range, and the
    receiver after two earlier calls. *)
Definition sender_at_top : Noise :=
  channel true HandshakeKK 2 (Some 7) (Some 9) (2 ^ 64 - 1) 0.

Definition receiver_at_two : Noise :=
  channel false HandshakeKK 2 (Some 9) (Some 7) 0 2.

(** The same packages with a cipher that, like an AEAD opening into a
    [nil] slice, returns [nil] for an empty plaintext. *)
Definition open_to_nil (key : Z) (out : bytes) (n : Z) (ad text : bytes)
  : option bytes * option error :=
  match rev text with
  | t :: body =>
      if Byte.eqb t (tag key n) then (appended_to_nil (out ++ rev body), None)
      else (None, Some "message authentication failed"%string)
  | [] => (None, Some "message authentication failed"%string)
  end.

Definition lib_nil : NoiseLib := {|
  Cipher := Z;
  CipherState := Z;
  HandshakeState := handshake;
  Encrypt := seal;
  Decrypt := open_to_nil;
  CipherState_Cipher := fun k => k;
  NewHandshakeState := start;
  MessageIndex := hs_index;
  PeerStatic := hs_peer;
  WriteMessage := step;
  ReadMessage := step
|}.

Definition sender_nil : @Noise keys lib_nil :=
  @Build_Noise keys lib_nil local_key secret_key true HandshakeKK
    {| hs_index := 2; hs_messages := 2; hs_peer := remote_key;
       hs_keys := (7, 9) |}
    (Some 7) (Some 9) 0 0.

Definition receiver_nil : @Noise keys lib_nil :=
  @Build_Noise keys lib_nil remote_key secret_key false HandshakeKK
    {| hs_index := 2; hs_messages := 2; hs_peer := local_key;
       hs_keys := (7, 9) |}
    (Some 9) (Some 7) 0 0.

Definition plaintexts_with_empty : list bytes := [text "a"; []; text "b"].

End Standin.

(** ** Byte order *)

Module Uint64Facts.

Lemma wrap_range z : Uint64.in_range (Uint64.wrap z).
Proof.
  unfold Uint64.in_range, Uint64.wrap, Uint64.modulus.
  apply Z.mod_pos_bound. lia.
Qed.

Lemma wrap_small z : Uint64.in_range z -> Uint64.wrap z = z.
Proof. unfold Uint64.in_range, Uint64.wrap. intros H. now apply Z.mod_small. Qed.

End Uint64Facts.

Lemma PutUint64_length v : List.length (PutUint64 v) = 8%nat.
Proof. reflexivity. Qed.

(** Bit [i] of the byte written at offset [k]. *)
Lemma testbit_be_byte v k i :
  0 <= k -> 0 <= i ->
  Z.testbit (Z.shiftl (byte.unsigned (byte.of_Z (Z.shiftr v k))) k) i =
  (k <=? i) && (i <? k + 8) && Z.testbit v i.
Proof.
  intros Hk Hi. rewrite Z.shiftl_spec by lia.
  destruct (Z.leb_spec k i) as [Hle | Hlt]; cbn [andb].
  - rewrite byte.unsigned_of_Z. unfold byte.wrap.
    rewrite Z.testbit_mod_pow2 by lia. rewrite Z.shiftr_spec by lia.
    replace (i - k + k) with i by lia.
    f_equal. destruct (Z.ltb_spec (i - k) 8), (Z.ltb_spec i (k + 8)); lia || reflexivity.
  - apply Z.testbit_neg_r. lia.
Qed.

Ltac split_comparisons :=
  repeat match goal with
         | |- context [?a <=? ?b] => destruct (Z.leb_spec a b); try lia
         | |- context [?a <? ?b] => destruct (Z.ltb_spec a b); try lia
         end.

Lemma Uint64_PutUint64 v : Uint64 (PutUint64 v) = Some (Uint64.wrap v).
Proof.
  unfold Uint64, PutUint64. f_equal. apply Z.bits_inj'. intros i Hi.
  unfold Uint64.wrap, Uint64.modulus.
  rewrite Z.testbit_mod_pow2 by lia.
  replace (byte.unsigned (byte.of_Z v))
    with (Z.shiftl (byte.unsigned (byte.of_Z (Z.shiftr v 0))) 0)
    by (now rewrite Z.shiftl_0_r, Z.shiftr_0_r).
  rewrite !Z.lor_spec, !testbit_be_byte by lia.
  destruct (Z.testbit v i); rewrite ?andb_false_r, ?andb_true_r; [| reflexivity].
  split_comparisons; reflexivity.
Qed.

(** ** The atomic counter operations *)

Lemma wrap_pred_succ c :
  Uint64.in_range c -> Uint64.wrap (Uint64.wrap (c + 1) - 1) = c.
Proof.
  unfold Uint64.in_range, Uint64.wrap, Uint64.modulus.
  change (2 ^ 64) with 18446744073709551616. intros H.
  Z.div_mod_to_equations. lia.
Qed.

Lemma wrap_pred_neq n : Uint64.wrap (Uint64.wrap n - 1) <> Uint64.wrap n.
Proof.
  unfold Uint64.wrap, Uint64.modulus.
  change (2 ^ 64) with 18446744073709551616.
  Z.div_mod_to_equations. lia.
Qed.

(** After [AddUint64(&cell, 1)] the cell no longer holds the value the
    call returned minus one, so a compare-and-swap against that value
    leaves the cell as it is. *)
Lemma CompareAndSwap_after_Add c r :
  CompareAndSwapUint64 (fst (AddUint64 c 1))
    (Uint64.wrap (snd (AddUint64 c 1) - 1)) r
  = (Uint64.wrap (c + 1), false).
Proof.
  unfold CompareAndSwapUint64, AddUint64. cbn [fst snd].
  destruct (Z.eqb_spec (Uint64.wrap (c + 1))
              (Uint64.wrap (Uint64.wrap (c + 1) - 1))) as [E | _].
  - symmetry in E. now apply wrap_pred_neq in E.
  - reflexivity.
Qed.

(** ** Transport messages *)

Lemma firstn_message n c : firstn nonceSize (PutUint64 n ++ c) = PutUint64 n.
Proof. reflexivity. Qed.

Lemma skipn_message n c : skipn nonceSize (PutUint64 n ++ c) = c.
Proof. reflexivity. Qed.

Lemma embedded_counter_message n c :
  Uint64.in_range n -> embedded_counter (PutUint64 n ++ c) = Some n.
Proof.
  intros H. unfold embedded_counter.
  now rewrite firstn_message, Uint64_PutUint64, Uint64Facts.wrap_small.
Qed.

Lemma Uint64_eight (b : bytes) :
  (8 <= List.length b)%nat -> exists v, Uint64 (firstn nonceSize b) = Some v.
Proof.
  intros H.
  do 8 (destruct b as [| ? b]; [cbn in H; lia |]).
  cbn [firstn nonceSize Uint64]. eauto.
Qed.

Section NoiseFacts.

Context {K : CipherPkg} {L : NoiseLib}.

Lemma DecryptUnsafe_long ns ciphertext recvSeq :
  (8 <= List.length ciphertext)%nat ->
  embedded_counter ciphertext = Some recvSeq ->
  DecryptUnsafe ns ciphertext
  = decrypt_long ns recvSeq (skipn nonceSize ciphertext).
Proof.
  intros Hlen Hseq. unfold DecryptUnsafe, decrypt_long.
  replace (List.length ciphertext =? 0)%nat with false
    by (symmetry; apply Nat.eqb_neq; lia).
  replace (List.length ciphertext <? nonceSize)%nat with false
    by (symmetry; apply Nat.ltb_ge; unfold nonceSize; lia).
  unfold embedded_counter in Hseq. rewrite Hseq.
  pose proof (CompareAndSwap_after_Add (decNonce ns) recvSeq) as Hcas.
  unfold AddUint64 in *. cbn [fst snd] in Hcas.
  cbn [set_decNonce decNonce dec].
  destruct (recvSeq <=? _); [reflexivity |].
  rewrite Hcas. cbn [set_decNonce decNonce dec pk sk init pattern hs enc encNonce].
  reflexivity.
Qed.

Lemma DecryptUnsafe_message ns n payload :
  Uint64.in_range n ->
  DecryptUnsafe ns (PutUint64 n ++ payload) = decrypt_long ns n payload.
Proof.
  intros Hn.
  rewrite (DecryptUnsafe_long ns _ n).
  - now rewrite skipn_message.
  - rewrite length_app, PutUint64_length. lia.
  - now apply embedded_counter_message.
Qed.

Lemma EncryptUnsafe_transport ns cs plaintext :
  enc ns = Some cs ->
  EncryptUnsafe ns plaintext
  = (set_encNonce ns (Uint64.wrap (encNonce ns + 1)),
     Returns (PutUint64 (Uint64.wrap (encNonce ns + 1))
              ++ Encrypt (CipherState_Cipher cs) []
                   (Uint64.wrap (encNonce ns + 1)) [] plaintext)).
Proof.
  intros He. unfold EncryptUnsafe, AddUint64. cbn [set_encNonce enc].
  now rewrite He.
Qed.

(** *** Empty and short inputs *)

(** C6. [DecryptUnsafe] on an empty input returns an empty plaintext and a
    nil error, and the channel it leaves is the channel it was given:
    neither counter nor any other field changes. *)
Theorem DecryptUnsafe_empty (ns : Noise) :
  DecryptUnsafe ns [] = (ns, Returns (Some [], None)).
Proof. reflexivity. Qed.

(** C7. A non-empty input shorter than eight bytes makes [DecryptUnsafe]
    panic with its own message instead of returning, and an input of eight
    bytes or more never ends in that panic. *)
Theorem DecryptUnsafe_short_panics (ns : Noise) (ciphertext : bytes) :
  ((0 < List.length ciphertext < 8)%nat ->
   DecryptUnsafe ns ciphertext = (ns, Panics (PanicString short_ciphertext)))
  /\ ((8 <= List.length ciphertext)%nat ->
      snd (DecryptUnsafe ns ciphertext) <> Panics (PanicString short_ciphertext)).
Proof.
  split; intros Hlen.
  - unfold DecryptUnsafe.
    replace (List.length ciphertext =? 0)%nat with false
      by (symmetry; apply Nat.eqb_neq; lia).
    replace (List.length ciphertext <? nonceSize)%nat with true
      by (symmetry; apply Nat.ltb_lt; unfold nonceSize; lia).
    reflexivity.
  - destruct (Uint64_eight ciphertext Hlen) as [v Hv].
    rewrite (DecryptUnsafe_long ns ciphertext v Hlen Hv).
    unfold decrypt_long.
    destruct (v <=? _); [discriminate |].
    destruct (dec ns); discriminate.
Qed.

(** *** The two directions *)

Ltac split_branches :=
  repeat match goal with
         | |- context [if ?c then _ else _] => destruct c eqn:?
         | |- context [match ?x with _ => _ end] => destruct x eqn:?
         end.

Lemma EncryptUnsafe_frame ns text :
  receive_side (fst (EncryptUnsafe ns text)) = receive_side ns
  /\ fixed_part (fst (EncryptUnsafe ns text)) = fixed_part ns
  /\ enc (fst (EncryptUnsafe ns text)) = enc ns.
Proof.
  unfold EncryptUnsafe, AddUint64, receive_side, fixed_part.
  cbn [set_encNonce enc].
  destruct (enc ns) eqn:He; cbn; rewrite ?He; repeat split.
Qed.

Lemma DecryptUnsafe_frame ns text :
  send_side (fst (DecryptUnsafe ns text)) = send_side ns
  /\ fixed_part (fst (DecryptUnsafe ns text)) = fixed_part ns
  /\ dec (fst (DecryptUnsafe ns text)) = dec ns.
Proof.
  unfold DecryptUnsafe, AddUint64, CompareAndSwapUint64, send_side, fixed_part.
  cbn [set_decNonce dec decNonce].
  split_branches; cbn; repeat split; assumption.
Qed.

Lemma EncryptUnsafe_reads a b text :
  send_side a = send_side b ->
  snd (EncryptUnsafe a text) = snd (EncryptUnsafe b text)
  /\ send_side (fst (EncryptUnsafe a text)) = send_side (fst (EncryptUnsafe b text)).
Proof.
  unfold send_side. intros H. injection H as Hn He.
  unfold EncryptUnsafe, AddUint64. cbn [set_encNonce enc].
  rewrite Hn, He.
  destruct (enc b) eqn:Hb; cbn; rewrite ?Hn, ?He, ?Hb; split; reflexivity.
Qed.

Lemma DecryptUnsafe_reads a b text :
  receive_side a = receive_side b ->
  snd (DecryptUnsafe a text) = snd (DecryptUnsafe b text)
  /\ receive_side (fst (DecryptUnsafe a text))
     = receive_side (fst (DecryptUnsafe b text)).
Proof.
  unfold receive_side. intros H. injection H as Hn Hd.
  unfold DecryptUnsafe, AddUint64, CompareAndSwapUint64.
  cbn [set_decNonce dec decNonce].
  rewrite Hn, Hd.
  split_branches; cbn; rewrite ?Hn, ?Hd; split; congruence.
Qed.

(** C10. The directions share no state. [EncryptUnsafe] leaves the receive
    counter, the receive cipher state and every field outside the send
    side as they were, and what it returns and stores is a function of the
    send counter and send cipher state alone; [DecryptUnsafe] is the mirror
    image on the receive side. *)
Theorem directions_disjoint (a b : Noise) (text : bytes) :
  (receive_side (fst (EncryptUnsafe a text)) = receive_side a
   /\ fixed_part (fst (EncryptUnsafe a text)) = fixed_part a)
  /\ (send_side a = send_side b ->
      snd (EncryptUnsafe a text) = snd (EncryptUnsafe b text)
      /\ send_side (fst (EncryptUnsafe a text))
         = send_side (fst (EncryptUnsafe b text)))
  /\ (send_side (fst (DecryptUnsafe a text)) = send_side a
      /\ fixed_part (fst (DecryptUnsafe a text)) = fixed_part a)
  /\ (receive_side a = receive_side b ->
      snd (DecryptUnsafe a text) = snd (DecryptUnsafe b text)
      /\ receive_side (fst (DecryptUnsafe a text))
         = receive_side (fst (DecryptUnsafe b text))).
Proof.
  repeat split.
  - apply EncryptUnsafe_frame.
  - apply EncryptUnsafe_frame.
  - now apply EncryptUnsafe_reads.
  - now apply EncryptUnsafe_reads.
  - apply DecryptUnsafe_frame.
  - apply DecryptUnsafe_frame.
  - now apply DecryptUnsafe_reads.
  - now apply DecryptUnsafe_reads.
Qed.

(** *** Consecutive encryptions *)

Lemma encrypt_all_cons ns p rest :
  encrypt_all ns (p :: rest)
  = (fst (encrypt_all (fst (EncryptUnsafe ns p)) rest),
     snd (EncryptUnsafe ns p) :: snd (encrypt_all (fst (EncryptUnsafe ns p)) rest)).
Proof.
  cbn [encrypt_all]. destruct (EncryptUnsafe ns p) as [ns1 o].
  cbn [fst snd]. now destruct (encrypt_all ns1 rest).
Qed.

Lemma decrypt_all_cons ns m rest :
  decrypt_all ns (m :: rest)
  = (fst (decrypt_all (fst (DecryptUnsafe ns m)) rest),
     snd (DecryptUnsafe ns m) :: snd (decrypt_all (fst (DecryptUnsafe ns m)) rest)).
Proof.
  cbn [decrypt_all]. destruct (DecryptUnsafe ns m) as [ns1 o].
  cbn [fst snd]. now destruct (decrypt_all ns1 rest).
Qed.

(** The message the call with counter [n] returns. *)
Lemma encrypt_all_nth plaintexts : forall ns cs i p,
  enc ns = Some cs ->
  0 <= encNonce ns ->
  encNonce ns + Z.of_nat (List.length plaintexts) < Uint64.modulus ->
  nth_error plaintexts i = Some p ->
  nth_error (snd (encrypt_all ns plaintexts)) i
  = Some (Returns (PutUint64 (encNonce ns + Z.of_nat i + 1)
                   ++ Encrypt (CipherState_Cipher cs) []
                        (encNonce ns + Z.of_nat i + 1) [] p)).
Proof.
  induction plaintexts as [| q rest IH]; intros ns cs i p He Hlo Hhi Hp.
  - destruct i; discriminate.
  - rewrite encrypt_all_cons. cbn [snd].
    rewrite (EncryptUnsafe_transport ns cs q He). cbn [fst snd].
    cbn [List.length] in Hhi.
    assert (Hw : Uint64.wrap (encNonce ns + 1) = encNonce ns + 1)
      by (apply Uint64Facts.wrap_small; unfold Uint64.in_range; lia).
    rewrite Hw.
    destruct i as [| i]; cbn [nth_error] in *.
    + injection Hp as ->. now rewrite Z.add_0_r.
    + rewrite (IH _ cs i p); cbn [set_encNonce enc encNonce]; try assumption; try lia.
      do 4 f_equal; lia.
Qed.

Lemma encrypt_all_length plaintexts : forall ns,
  List.length (snd (encrypt_all ns plaintexts)) = List.length plaintexts.
Proof.
  induction plaintexts as [| q rest IH]; intros ns; [reflexivity |].
  rewrite encrypt_all_cons. cbn [snd List.length]. now rewrite IH.
Qed.

Lemma encrypt_all_counters plaintexts : forall ns cs,
  enc ns = Some cs ->
  0 <= encNonce ns ->
  encNonce ns + Z.of_nat (List.length plaintexts) < Uint64.modulus ->
  map embedded_counter (returned (snd (encrypt_all ns plaintexts)))
  = map (fun i => Some (encNonce ns + Z.of_nat i))
        (seq 1 (List.length plaintexts)).
Proof.
  induction plaintexts as [| q rest IH]; intros ns cs He Hlo Hhi; [reflexivity |].
  rewrite encrypt_all_cons. cbn [snd].
  rewrite (EncryptUnsafe_transport ns cs q He). cbn [fst snd].
  cbn [List.length] in Hhi.
  assert (Hw : Uint64.wrap (encNonce ns + 1) = encNonce ns + 1)
    by (apply Uint64Facts.wrap_small; unfold Uint64.in_range; lia).
  rewrite Hw. unfold returned. cbn [flat_map app map List.length seq].
  fold (returned (snd (encrypt_all (set_encNonce ns (encNonce ns + 1)) rest))).
  rewrite (IH _ cs); cbn [set_encNonce enc encNonce]; try assumption; try lia.
  rewrite embedded_counter_message by (unfold Uint64.in_range; lia).
  f_equal. rewrite <- (seq_shift (List.length rest) 1), map_map.
  apply map_ext. intros i. f_equal. lia.
Qed.

(** C4. On a channel in transport mode whose send counter is zero, the
    [i]-th of [N] consecutive [EncryptUnsafe] calls (with [N] below
    [2^64], the range of the counter) returns the eight big-endian bytes
    of [i] followed by the cipher's encryption of the plaintext under
    nonce [i] with empty associated data; every call returns, and the
    counters embedded in the [N] messages are [1, 2, ..., N], hence
    strictly increasing and free of duplicates. *)
Theorem EncryptUnsafe_counters (ns : Noise) (cs : CipherState)
    (plaintexts : list bytes) :
  enc ns = Some cs ->
  encNonce ns = 0 ->
  Z.of_nat (List.length plaintexts) < 2 ^ 64 ->
  let outcomes := snd (encrypt_all ns plaintexts) in
  List.length outcomes = List.length plaintexts
  /\ (forall i p,
        nth_error plaintexts i = Some p ->
        nth_error outcomes i
        = Some (Returns (PutUint64 (Z.of_nat (S i))
                         ++ Encrypt (CipherState_Cipher cs) []
                              (Z.of_nat (S i)) [] p)))
  /\ map embedded_counter (returned outcomes)
     = map (fun i => Some (Z.of_nat i)) (seq 1 (List.length plaintexts))
  /\ (forall i j ci cj,
        (i < j)%nat ->
        nth_error (map embedded_counter (returned outcomes)) i = Some (Some ci) ->
        nth_error (map embedded_counter (returned outcomes)) j = Some (Some cj) ->
        ci < cj).
Proof.
  intros He H0 HN outcomes. subst outcomes.
  assert (Hc : map embedded_counter (returned (snd (encrypt_all ns plaintexts)))
               = map (fun i => Some (Z.of_nat i)) (seq 1 (List.length plaintexts))).
  { rewrite (encrypt_all_counters plaintexts ns cs He);
      rewrite ?H0; try (unfold Uint64.modulus; lia).
    apply map_ext. intros i. f_equal. }
  repeat split.
  - apply encrypt_all_length.
  - intros i p Hp.
    rewrite (encrypt_all_nth plaintexts ns cs i p He);
      rewrite ?H0; try assumption; try (unfold Uint64.modulus; lia).
    do 4 f_equal; lia.
  - exact Hc.
  - intros i j ci cj Hij Hi Hj. rewrite Hc in Hi, Hj.
    rewrite nth_error_map in Hi, Hj.
    destruct (nth_error (seq 1 (List.length plaintexts)) i) as [a |] eqn:Ea;
      [| discriminate].
    destruct (nth_error (seq 1 (List.length plaintexts)) j) as [b |] eqn:Eb;
      [| discriminate].
    cbn in Hi, Hj. injection Hi as <-. injection Hj as <-.
    assert (La : (i < List.length (seq 1 (List.length plaintexts)))%nat)
      by (apply nth_error_Some; rewrite Ea; discriminate).
    assert (Lb : (j < List.length (seq 1 (List.length plaintexts)))%nat)
      by (apply nth_error_Some; rewrite Eb; discriminate).
    rewrite length_seq in La, Lb.
    rewrite (nth_error_nth' _ 0%nat) in Ea by (now rewrite length_seq).
    rewrite (nth_error_nth' _ 0%nat) in Eb by (now rewrite length_seq).
    rewrite seq_nth in Ea, Eb by assumption.
    injection Ea as <-. injection Eb as <-. lia.
Qed.

(** *** Received messages *)

(** The receive counter counts the calls that got past the length checks:
    it goes up by one on each of them and is never set to the counter of
    the message. *)
Lemma DecryptUnsafe_decNonce ns ciphertext :
  (8 <= List.length ciphertext)%nat ->
  decNonce (fst (DecryptUnsafe ns ciphertext)) = Uint64.wrap (decNonce ns + 1).
Proof.
  intros Hlen. destruct (Uint64_eight ciphertext Hlen) as [v Hv].
  rewrite (DecryptUnsafe_long ns ciphertext v Hlen Hv). unfold decrypt_long.
  destruct (v <=? _); [reflexivity |]. now destruct (dec ns).
Qed.

(** A message reaches the cipher exactly when its counter exceeds the
    number held by the receive counter. *)
Lemma DecryptUnsafe_accepts ns cs n payload :
  Uint64.in_range n ->
  Uint64.in_range (decNonce ns) ->
  dec ns = Some cs ->
  snd (DecryptUnsafe ns (PutUint64 n ++ payload))
  = if n <=? decNonce ns then Returns (None, None)
    else Returns (Decrypt (CipherState_Cipher cs) [] n [] payload).
Proof.
  intros Hn Hd Hcs. rewrite DecryptUnsafe_message by assumption.
  unfold decrypt_long. rewrite wrap_pred_succ by assumption. rewrite Hcs.
  now destruct (n <=? decNonce ns).
Qed.

(** C5. On a channel that has just entered transport mode, with valid
    messages carrying counters 1 and 2, decrypting the counter-2 message
    first returns its plaintext, and the counter-1 message decrypted after
    it is rejected: nil plaintext, nil error, no panic. *)
Theorem DecryptUnsafe_reordered (ns : Noise) (cs : CipherState)
    (c1 c2 p1 p2 : bytes) :
  dec ns = Some cs ->
  decNonce ns = 0 ->
  Decrypt (CipherState_Cipher cs) [] 1 [] c1 = (Some p1, None) ->
  Decrypt (CipherState_Cipher cs) [] 2 [] c2 = (Some p2, None) ->
  snd (decrypt_all ns [PutUint64 2 ++ c2; PutUint64 1 ++ c1])
  = [Returns (Some p2, None); Returns (None, None)].
Proof.
  intros Hcs H0 _ Hvalid.
  assert (R1 : Uint64.in_range 1) by (unfold Uint64.in_range, Uint64.modulus; lia).
  assert (R2 : Uint64.in_range 2) by (unfold Uint64.in_range, Uint64.modulus; lia).
  rewrite !decrypt_all_cons. cbn [fst snd decrypt_all].
  rewrite (DecryptUnsafe_accepts ns cs 2 c2 R2)
    by (rewrite ?H0; assumption || (unfold Uint64.in_range, Uint64.modulus; lia)).
  rewrite H0, Hvalid. cbn [Z.leb Z.compare Pos.compare].
  rewrite (DecryptUnsafe_message ns 2 c2 R2). unfold decrypt_long at 1.
  rewrite H0, Hcs.
  change (Uint64.wrap (0 + 1)) with 1. change (Uint64.wrap (1 - 1)) with 0.
  cbn [Z.leb Z.compare Pos.compare fst].
  rewrite (DecryptUnsafe_accepts _ cs 1 c1 R1);
    cbn [set_decNonce decNonce dec];
    try assumption; try (unfold Uint64.in_range, Uint64.modulus; lia).
  reflexivity.
Qed.

(** *** The handshake *)

(** C8. Whatever the pattern, [HandshakeMessage] and [ProcessMessage] leave
    both cipher states alone before the pattern's last message, and on the
    last message store the pair the handshake state derived: the producer
    as (receive, send), the consumer as (send, receive). When both ends
    derive the same pair, the producer's send state is therefore the
    consumer's receive state and the other way round. *)
Theorem cipher_states_stored_on_last_message (ns peer : Noise) (msg : bytes) :
  (MessageIndex (hs ns) < last_message_index ns ->
   (enc (fst (HandshakeMessage ns)), dec (fst (HandshakeMessage ns)))
   = (enc ns, dec ns)
   /\ (enc (fst (ProcessMessage ns msg)), dec (fst (ProcessMessage ns msg)))
      = (enc ns, dec ns))
  /\ (MessageIndex (hs ns) = last_message_index ns ->
      (dec (fst (HandshakeMessage ns)), enc (fst (HandshakeMessage ns)))
      = (mr_cs1 (snd (WriteMessage (hs ns) [] [])),
         mr_cs2 (snd (WriteMessage (hs ns) [] [])))
      /\ (enc (fst (ProcessMessage ns msg)), dec (fst (ProcessMessage ns msg)))
         = (mr_cs1 (snd (ReadMessage (hs ns) [] msg)),
            mr_cs2 (snd (ReadMessage (hs ns) [] msg))))
  /\ (MessageIndex (hs ns) = last_message_index ns ->
      MessageIndex (hs peer) = last_message_index peer ->
      mr_cs1 (snd (WriteMessage (hs ns) [] []))
      = mr_cs1 (snd (ReadMessage (hs peer) [] msg)) ->
      mr_cs2 (snd (WriteMessage (hs ns) [] []))
      = mr_cs2 (snd (ReadMessage (hs peer) [] msg)) ->
      enc (fst (HandshakeMessage ns)) = dec (fst (ProcessMessage peer msg))
      /\ dec (fst (HandshakeMessage ns)) = enc (fst (ProcessMessage peer msg))).
Proof.
  assert (Hlast : forall a : Noise,
             MessageIndex (hs a) = last_message_index a ->
             (MessageIndex (hs a) <? last_message_index a) = false)
    by (intros a E; rewrite E; apply Z.ltb_irrefl).
  split; [| split].
  - intros Hlt. apply Z.ltb_lt in Hlt.
    unfold HandshakeMessage, ProcessMessage. rewrite Hlt.
    destruct (WriteMessage (hs ns) [] []), (ReadMessage (hs ns) [] msg).
    split; reflexivity.
  - intros Heq. unfold HandshakeMessage, ProcessMessage.
    rewrite (Hlast ns Heq).
    destruct (WriteMessage (hs ns) [] []), (ReadMessage (hs ns) [] msg).
    split; reflexivity.
  - intros Heq Hpeer H1 H2. unfold HandshakeMessage, ProcessMessage.
    rewrite (Hlast ns Heq), (Hlast peer Hpeer).
    destruct (WriteMessage (hs ns) [] []), (ReadMessage (hs peer) [] msg).
    cbn in *. split; congruence.
Qed.

(** [RemoteStatic] by the result of [NewPubKey]. *)
Lemma RemoteStatic_outcome (ns : Noise) :
  (forall key,
     NewPubKey (PeerStatic (hs ns)) = (key, None) ->
     RemoteStatic ns = Returns key)
  /\ (forall key e,
        NewPubKey (PeerStatic (hs ns)) = (key, Some e) ->
        RemoteStatic ns = Panics (PanicError e)).
Proof.
  split; intros; unfold RemoteStatic;
    match goal with H : NewPubKey _ = _ |- _ => now rewrite H end.
Qed.

End NoiseFacts.

(** ** The model on concrete channels *)

(** The stand-in handshake brings [New]'s channels to the two ends used
    below, and [XKAndSecp256k1] without a remote key to [unpinned]. *)
Example handshake_reaches_transport :
  Standin.handshake_KK true = Some Standin.sender
  /\ Standin.handshake_KK false = Some Standin.receiver
  /\ XKAndSecp256k1 Standin.unpinned_config = (Some Standin.unpinned, None).
Proof. repeat split. Qed.

Example sent_counters :
  map embedded_counter Standin.sent = [Some 1; Some 2; Some 3; Some 4; Some 5].
Proof. reflexivity. Qed.

Lemma EncryptUnsafe_counters_witness :
  map embedded_counter
    (returned (snd (encrypt_all Standin.sender Standin.plaintexts)))
  = map (fun i => Some (Z.of_nat i)) (seq 1 5).
Proof.
  apply (EncryptUnsafe_counters Standin.sender 7 Standin.plaintexts).
  - reflexivity.
  - reflexivity.
  - simpl. lia.
Defined.

Lemma DecryptUnsafe_reordered_witness :
  snd (decrypt_all Standin.receiver
         [PutUint64 2 ++ Standin.seal 7 [] 2 [] (Standin.text "b");
          PutUint64 1 ++ Standin.seal 7 [] 1 [] (Standin.text "a")])
  = [Returns (Some (Standin.text "b"), None); Returns (None, None)].
Proof.
  apply (DecryptUnsafe_reordered Standin.receiver 7
           (Standin.seal 7 [] 1 [] (Standin.text "a"))
           (Standin.seal 7 [] 2 [] (Standin.text "b"))
           (Standin.text "a") (Standin.text "b")); reflexivity.
Defined.

Lemma DecryptUnsafe_short_panics_witness :
  DecryptUnsafe Standin.receiver [Byte.x00; Byte.x00; Byte.x01]
  = (Standin.receiver, Panics (PanicString short_ciphertext))
  /\ snd (DecryptUnsafe Standin.receiver (Standin.message 1))
     <> Panics (PanicString short_ciphertext).
Proof.
  split.
  - apply (DecryptUnsafe_short_panics Standin.receiver
             [Byte.x00; Byte.x00; Byte.x01]). simpl. lia.
  - apply (DecryptUnsafe_short_panics Standin.receiver (Standin.message 1)).
    vm_compute. lia.
Defined.

Lemma directions_disjoint_witness :
  snd (EncryptUnsafe Standin.sender (Standin.text "a"))
  = snd (EncryptUnsafe (Standin.channel false HandshakeXK 3 (Some 7) None 0 4)
           (Standin.text "a"))
  /\ snd (DecryptUnsafe Standin.receiver (Standin.message 1))
     = snd (DecryptUnsafe (Standin.channel true HandshakeXK 3 None (Some 7) 6 0)
              (Standin.message 1)).
Proof.
  split.
  - apply (directions_disjoint Standin.sender
             (Standin.channel false HandshakeXK 3 (Some 7) None 0 4)
             (Standin.text "a")). reflexivity.
  - apply (directions_disjoint Standin.receiver
             (Standin.channel true HandshakeXK 3 None (Some 7) 6 0)
             (Standin.message 1)). reflexivity.
Defined.

Lemma cipher_states_stored_on_last_message_witness :
  ((enc (fst (HandshakeMessage (Standin.channel true HandshakeXK 0 None None 0 0))),
    dec (fst (HandshakeMessage (Standin.channel true HandshakeXK 0 None None 0 0))))
   = (None, None))
  /\ ((dec (fst (HandshakeMessage (Standin.channel true HandshakeXK 2 None None 0 0))),
       enc (fst (HandshakeMessage (Standin.channel true HandshakeXK 2 None None 0 0))))
      = (Some 7, Some 9))
  /\ enc (fst (HandshakeMessage (Standin.channel true HandshakeXK 2 None None 0 0)))
     = dec (fst (ProcessMessage (Standin.channel false HandshakeXK 2 None None 0 0) [])).
Proof.
  split; [| split].
  - destruct (cipher_states_stored_on_last_message
                (Standin.channel true HandshakeXK 0 None None 0 0)
                (Standin.channel false HandshakeXK 0 None None 0 0) [])
      as [Hearlier _].
    destruct Hearlier as [Hproduce _]; [reflexivity | exact Hproduce].
  - destruct (cipher_states_stored_on_last_message
                (Standin.channel true HandshakeXK 2 None None 0 0)
                (Standin.channel false HandshakeXK 2 None None 0 0) [])
      as [_ [Hlast _]].
    destruct Hlast as [Hproduce _]; [reflexivity | exact Hproduce].
  - destruct (cipher_states_stored_on_last_message
                (Standin.channel true HandshakeXK 2 None None 0 0)
                (Standin.channel false HandshakeXK 2 None None 0 0) [])
      as [_ [_ Hswap]].
    destruct Hswap as [Hsend _]; [reflexivity .. | exact Hsend].
Defined.

(** C9, as stated, fails: on the responder that [XKAndSecp256k1] builds
    without a remote key, before any handshake message, the handshake
    state has no peer key and [RemoteStatic] does not return at all, with
    a key or with an error: it panics. *)
Lemma RemoteStatic_panics_before_handshake :
  fst (XKAndSecp256k1 Standin.unpinned_config) = Some Standin.unpinned
  /\ HandshakeFinished Standin.unpinned = false
  /\ PeerStatic (hs Standin.unpinned) = []
  /\ RemoteStatic Standin.unpinned
     = Panics (PanicError "Invalid public key length"%string)
  /\ ~ (exists key, RemoteStatic Standin.unpinned = Returns key).
Proof.
  repeat split. intros [key H]. discriminate H.
Qed.

(** ** Where the receive counter departs from the design

    [DecryptUnsafe] adds one to [decNonce] and then tries to swap the
    message's counter in against the value from before the addition. After
    the addition the cell no longer holds that value
    ([CompareAndSwap_after_Add]), so the swap never happens and the cell
    counts calls ([DecryptUnsafe_decNonce]) where the design wants the
    highest counter accepted. The three runs below show what follows. *)

(** C3, which the code does not meet. The receiver at counter 0 decrypts
    the message carrying counter 5 and returns its plaintext; the receive
    counter it is left with is 1, not 5. *)
Theorem DecryptUnsafe_counter_not_advanced :
  embedded_counter (Standin.message 5) = Some 5
  /\ DecryptUnsafe Standin.receiver (Standin.message 5)
     = (set_decNonce Standin.receiver 1,
        Returns (Some (Standin.text "e"), None))
  /\ decNonce (fst (DecryptUnsafe Standin.receiver (Standin.message 5))) <> 5.
Proof. repeat split. discriminate. Qed.

(** C1, which the code does not meet. After the message with counter 5
    has been accepted, the message with counter 3 is accepted too; and
    after counter 1 has been accepted and offered twice more, the message
    with counter 3, above everything accepted so far, is rejected. *)
Theorem DecryptUnsafe_ignores_high_water_mark :
  embedded_counter (Standin.message 3) = Some 3
  /\ embedded_counter (Standin.message 5) = Some 5
  /\ snd (decrypt_all Standin.receiver [Standin.message 5; Standin.message 3])
     = [Returns (Some (Standin.text "e"), None);
        Returns (Some (Standin.text "c"), None)]
  /\ snd (decrypt_all Standin.receiver
            [Standin.message 1; Standin.message 1; Standin.message 1;
             Standin.message 3])
     = [Returns (Some (Standin.text "a"), None); Returns (None, None);
        Returns (None, None); Returns (None, None)].
Proof. repeat split. Qed.

(** C2, which the code does not meet. The sender encrypts two messages and
    the first is lost on the way. The receiver accepts the second, and
    accepts the same bytes again when they are replayed; only the third
    copy is rejected. *)
Theorem DecryptUnsafe_replay_accepted :
  Standin.message 2
  = nth 1 (returned (snd (encrypt_all Standin.sender
                            [Standin.text "a"; Standin.text "b"]))) []
  /\ snd (decrypt_all Standin.receiver
            [Standin.message 2; Standin.message 2; Standin.message 2])
     = [Returns (Some (Standin.text "b"), None);
        Returns (Some (Standin.text "b"), None);
        Returns (None, None)].
Proof. repeat split. Qed.

(** ** Further properties of the transport operations *)

Lemma in_range_succ c :
  Uint64.in_range c -> c + 1 < Uint64.modulus ->
  Uint64.wrap (c + 1) = c + 1.
Proof.
  intros [Hlo _] Hhi. apply Uint64Facts.wrap_small. unfold Uint64.in_range. lia.
Qed.

Lemma wrap_add_wrap a b : Uint64.wrap (Uint64.wrap a + b) = Uint64.wrap (a + b).
Proof. unfold Uint64.wrap. apply Zplus_mod_idemp_l. Qed.

Section TransportFacts.

Context {K : CipherPkg} {L : NoiseLib}.

Lemma DecryptUnsafe_fst_framed (ns : Noise) (m : bytes) :
  (8 <= List.length m)%nat ->
  fst (DecryptUnsafe ns m) = set_decNonce ns (Uint64.wrap (decNonce ns + 1)).
Proof.
  intros Hlen. destruct (Uint64_eight m Hlen) as [v Hv].
  rewrite (DecryptUnsafe_long ns m v Hlen Hv). unfold decrypt_long.
  destruct (v <=? _); [reflexivity |]. now destruct (dec ns).
Qed.

Lemma DecryptUnsafe_fst_empty (ns : Noise) (m : bytes) :
  List.length m = 0%nat -> fst (DecryptUnsafe ns m) = ns.
Proof.
  intros Hlen. destruct m; [reflexivity | discriminate].
Qed.

Lemma decrypt_all_decNonce (msgs : list bytes) : forall ns : Noise,
  Uint64.in_range (decNonce ns) ->
  Forall empty_or_framed msgs ->
  decNonce (fst (decrypt_all ns msgs))
  = Uint64.wrap (decNonce ns + Z.of_nat (List.length (filter framed msgs))).
Proof.
  induction msgs as [| m rest IH]; intros ns Hr Hall.
  - cbn. rewrite Z.add_0_r. symmetry. now apply Uint64Facts.wrap_small.
  - inversion Hall as [| ? ? Hm Hrest]; subst.
    rewrite decrypt_all_cons. cbn [fst filter].
    destruct Hm as [Hempty | Hlong].
    + rewrite (DecryptUnsafe_fst_empty ns m Hempty).
      replace (framed m) with false
        by (symmetry; apply Nat.leb_gt; unfold nonceSize; lia).
      now apply IH.
    + rewrite (DecryptUnsafe_fst_framed ns m Hlong).
      replace (framed m) with true
        by (symmetry; apply Nat.leb_le; unfold nonceSize; lia).
      rewrite IH; cbn [set_decNonce decNonce];
        [| apply Uint64Facts.wrap_range | assumption].
      rewrite wrap_add_wrap. cbn [List.length]. f_equal. lia.
Qed.

Lemma filter_framed_length (msgs : list bytes) :
  (List.length (filter framed msgs) <= List.length msgs)%nat.
Proof. apply filter_length_le. Qed.

(** X1. Whatever the send counter, the message [EncryptUnsafe] returns on
    a channel with a send cipher state splits back into what went in: its
    first eight bytes decode to the counter the channel now holds, the
    rest is the cipher's output for the plaintext under that counter, and
    it is never shorter than the eight-byte header. *)
Theorem EncryptUnsafe_wire_format (ns : Noise) (cs : CipherState)
    (plaintext : bytes) :
  enc ns = Some cs ->
  exists m,
    snd (EncryptUnsafe ns plaintext) = Returns m
    /\ embedded_counter m = Some (encNonce (fst (EncryptUnsafe ns plaintext)))
    /\ skipn nonceSize m
       = Encrypt (CipherState_Cipher cs) []
           (encNonce (fst (EncryptUnsafe ns plaintext))) [] plaintext
    /\ List.length m
       = (8 + List.length (Encrypt (CipherState_Cipher cs) []
                             (encNonce (fst (EncryptUnsafe ns plaintext))) []
                             plaintext))%nat
    /\ Uint64.in_range (encNonce (fst (EncryptUnsafe ns plaintext))).
Proof.
  intros He. rewrite (EncryptUnsafe_transport ns cs plaintext He).
  cbn [fst snd set_encNonce encNonce]. eexists. split; [reflexivity |].
  repeat split.
  - apply embedded_counter_message, Uint64Facts.wrap_range.
  - apply Uint64Facts.wrap_range.
  - apply Uint64Facts.wrap_range.
Qed.

(** X2. The decision [DecryptUnsafe] takes on an input of eight bytes or
    more, on a channel with a receive cipher state: the receive counter
    goes up by one in every case; the call returns nil and nil when the
    embedded counter is at most the counter held before the call, and
    otherwise returns what the cipher's [Decrypt] returns for the rest of
    the input under the embedded counter, plaintext or error alike. *)
Theorem DecryptUnsafe_decision (ns : Noise) (cs : CipherState)
    (ciphertext : bytes) (recvSeq : Z) :
  dec ns = Some cs ->
  Uint64.in_range (decNonce ns) ->
  (8 <= List.length ciphertext)%nat ->
  embedded_counter ciphertext = Some recvSeq ->
  DecryptUnsafe ns ciphertext
  = (set_decNonce ns (Uint64.wrap (decNonce ns + 1)),
     if recvSeq <=? decNonce ns then Returns (None, None)
     else Returns (Decrypt (CipherState_Cipher cs) [] recvSeq []
                     (skipn nonceSize ciphertext))).
Proof.
  intros Hcs Hr Hlen Hseq.
  rewrite (DecryptUnsafe_long ns ciphertext recvSeq Hlen Hseq).
  unfold decrypt_long. rewrite wrap_pred_succ by assumption. rewrite Hcs.
  now destruct (recvSeq <=? decNonce ns).
Qed.

(** X3. Over a run of [DecryptUnsafe] calls on inputs that are empty or at
    least eight bytes long, the receive counter ends at its start value
    plus the number of non-empty inputs, modulo [2^64]: accepted, rejected
    and failed messages all count one, empty inputs count nothing, and the
    counters the messages carry play no part. *)
Theorem decrypt_all_counts_calls (ns : Noise) (msgs : list bytes) :
  Uint64.in_range (decNonce ns) ->
  Forall empty_or_framed msgs ->
  decNonce (fst (decrypt_all ns msgs))
  = Uint64.wrap (decNonce ns + Z.of_nat (List.length (filter framed msgs))).
Proof. intros Hr Hall. now apply decrypt_all_decNonce. Qed.

(** X4. A message whose counter is at most the receive counter is
    rejected with nil and nil, with or without a receive cipher state, and
    it is still rejected after any further run of calls that does not
    take the receive counter past [2^64 - 1]. *)
Theorem rejected_stays_rejected (ns : Noise) (msgs : list bytes)
    (n : Z) (payload : bytes) :
  Uint64.in_range (decNonce ns) ->
  Forall empty_or_framed msgs ->
  decNonce ns + Z.of_nat (List.length msgs) < Uint64.modulus ->
  0 <= n <= decNonce ns ->
  snd (DecryptUnsafe (fst (decrypt_all ns msgs)) (PutUint64 n ++ payload))
  = Returns (None, None).
Proof.
  intros Hr Hall Hfit Hn.
  pose proof (filter_framed_length msgs) as Hk.
  assert (Hin : Uint64.in_range n) by (unfold Uint64.in_range in *; lia).
  rewrite (DecryptUnsafe_message _ n payload Hin). unfold decrypt_long.
  rewrite (decrypt_all_decNonce msgs ns Hr Hall).
  set (k := Z.of_nat (List.length (filter framed msgs))).
  assert (Hkr : Uint64.in_range (decNonce ns + k))
    by (unfold Uint64.in_range in *; subst k; lia).
  rewrite (Uint64Facts.wrap_small _ Hkr).
  rewrite (wrap_pred_succ _ Hkr).
  replace (n <=? decNonce ns + k) with true
    by (symmetry; apply Z.leb_le; subst k; lia).
  reflexivity.
Qed.

(** X5. The message that carries the next counter in order, the receive
    counter plus one, is handed to the cipher, and from then on every
    further copy of it is rejected, whatever is decrypted in between, as
    long as the receive counter stays below [2^64]. *)
Theorem in_order_message_accepted_once (ns : Noise) (cs : CipherState)
    (msgs : list bytes) (payload : bytes) :
  dec ns = Some cs ->
  Uint64.in_range (decNonce ns) ->
  Forall empty_or_framed msgs ->
  decNonce ns + 1 + Z.of_nat (List.length msgs) < Uint64.modulus ->
  snd (DecryptUnsafe ns (PutUint64 (decNonce ns + 1) ++ payload))
  = Returns (Decrypt (CipherState_Cipher cs) [] (decNonce ns + 1) [] payload)
  /\ snd (DecryptUnsafe
            (fst (decrypt_all
                    (fst (DecryptUnsafe ns (PutUint64 (decNonce ns + 1) ++ payload)))
                    msgs))
            (PutUint64 (decNonce ns + 1) ++ payload))
     = Returns (None, None).
Proof.
  intros Hcs Hr Hall Hfit.
  assert (Hn : Uint64.in_range (decNonce ns + 1))
    by (unfold Uint64.in_range in *; lia).
  split.
  - rewrite (DecryptUnsafe_accepts ns cs _ payload Hn Hr Hcs).
    replace (decNonce ns + 1 <=? decNonce ns) with false
      by (symmetry; apply Z.leb_gt; lia).
    reflexivity.
  - rewrite DecryptUnsafe_fst_framed
      by (rewrite length_app, PutUint64_length; lia).
    assert (Hw : Uint64.wrap (decNonce ns + 1) = decNonce ns + 1)
      by (now apply Uint64Facts.wrap_small).
    rewrite Hw.
    pose proof (filter_framed_length msgs) as Hk.
    rewrite (DecryptUnsafe_message _ _ payload Hn). unfold decrypt_long.
    rewrite decrypt_all_decNonce; cbn [set_decNonce decNonce]; try assumption.
    set (k := Z.of_nat (List.length (filter framed msgs))).
    assert (Hkr : Uint64.in_range (decNonce ns + 1 + k))
      by (unfold Uint64.in_range in *; subst k; lia).
    rewrite (Uint64Facts.wrap_small _ Hkr).
    rewrite (wrap_pred_succ _ Hkr).
    replace (decNonce ns + 1 <=? decNonce ns + 1 + k) with true
      by (symmetry; apply Z.leb_le; subst k; lia).
    reflexivity.
Qed.

Lemma PutUint64_inj a b :
  Uint64.in_range a -> Uint64.in_range b -> PutUint64 a = PutUint64 b -> a = b.
Proof.
  intros Ha Hb E. apply (f_equal Uint64) in E.
  rewrite !Uint64_PutUint64, !Uint64Facts.wrap_small in E by assumption.
  now injection E.
Qed.

Lemma returned_cons m os : returned (Returns m :: os) = m :: returned os.
Proof. reflexivity. Qed.

(** X6. A message that carries counter 0 is rejected with nil and nil by
    every channel, in every state: no receive counter is below zero. The
    receive counter goes up by one all the same. *)
Theorem counter_zero_rejected (ns : Noise) (payload : bytes) :
  DecryptUnsafe ns (PutUint64 0 ++ payload)
  = (set_decNonce ns (Uint64.wrap (decNonce ns + 1)), Returns (None, None)).
Proof.
  assert (H0 : Uint64.in_range 0) by (unfold Uint64.in_range, Uint64.modulus; lia).
  rewrite (DecryptUnsafe_message ns 0 payload H0). unfold decrypt_long.
  pose proof (Uint64Facts.wrap_range (Uint64.wrap (decNonce ns + 1) - 1)) as [Hlo _].
  replace (0 <=? Uint64.wrap (Uint64.wrap (decNonce ns + 1) - 1)) with true
    by (symmetry; now apply Z.leb_le).
  reflexivity.
Qed.

(** X7. The send counter wraps around: on a channel whose send counter is
    [2^64 - 1], [EncryptUnsafe] sets the counter to 0 and returns a message
    that carries counter 0 and is encrypted under nonce 0, a message that
    every receiving channel rejects. *)
Theorem EncryptUnsafe_wraps (ns receiver : Noise) (cs : CipherState)
    (plaintext : bytes) :
  enc ns = Some cs ->
  encNonce ns = 2 ^ 64 - 1 ->
  EncryptUnsafe ns plaintext
  = (set_encNonce ns 0,
     Returns (PutUint64 0 ++ Encrypt (CipherState_Cipher cs) [] 0 [] plaintext))
  /\ forall m,
       snd (EncryptUnsafe ns plaintext) = Returns m ->
       snd (DecryptUnsafe receiver m) = Returns (None, None).
Proof.
  intros He Hmax.
  assert (E : EncryptUnsafe ns plaintext
              = (set_encNonce ns 0,
                 Returns (PutUint64 0
                          ++ Encrypt (CipherState_Cipher cs) [] 0 [] plaintext))).
  { rewrite (EncryptUnsafe_transport ns cs plaintext He), Hmax. reflexivity. }
  split; [exact E |].
  intros m Hm. rewrite E in Hm. cbn [snd] in Hm.
  assert (Em : m = PutUint64 0 ++ Encrypt (CipherState_Cipher cs) [] 0 [] plaintext)
    by congruence.
  rewrite Em.
  assert (H0 : Uint64.in_range 0) by (unfold Uint64.in_range, Uint64.modulus; lia).
  rewrite (DecryptUnsafe_message receiver 0 _ H0). unfold decrypt_long.
  pose proof (Uint64Facts.wrap_range
                (Uint64.wrap (decNonce receiver + 1) - 1)) as [Hlo _].
  replace (0 <=? Uint64.wrap (Uint64.wrap (decNonce receiver + 1) - 1)) with true
    by (symmetry; now apply Z.leb_le).
  reflexivity.
Qed.

(** X8. As long as the send counter does not wrap, no two calls of a run
    of [EncryptUnsafe] calls return the same bytes, even for equal
    plaintexts: the headers differ. *)
Theorem EncryptUnsafe_messages_distinct (ns : Noise) (cs : CipherState)
    (plaintexts : list bytes) (i j : nat) (a b : outcome bytes) :
  enc ns = Some cs ->
  0 <= encNonce ns ->
  encNonce ns + Z.of_nat (List.length plaintexts) < Uint64.modulus ->
  i <> j ->
  nth_error (snd (encrypt_all ns plaintexts)) i = Some a ->
  nth_error (snd (encrypt_all ns plaintexts)) j = Some b ->
  a <> b.
Proof.
  intros He Hlo Hhi Hij Ha Hb.
  assert (Hlen := encrypt_all_length plaintexts ns).
  assert (Li : (i < List.length plaintexts)%nat)
    by (rewrite <- Hlen; apply nth_error_Some; rewrite Ha; discriminate).
  assert (Lj : (j < List.length plaintexts)%nat)
    by (rewrite <- Hlen; apply nth_error_Some; rewrite Hb; discriminate).
  destruct (nth_error plaintexts i) as [p |] eqn:Ep;
    [| apply nth_error_None in Ep; lia].
  destruct (nth_error plaintexts j) as [q |] eqn:Eq;
    [| apply nth_error_None in Eq; lia].
  rewrite (encrypt_all_nth plaintexts ns cs i p He Hlo Hhi Ep) in Ha.
  rewrite (encrypt_all_nth plaintexts ns cs j q He Hlo Hhi Eq) in Hb.
  intros E. subst b. rewrite <- Hb in Ha.
  apply (f_equal (fun o => match o with
                           | Some (Returns m) => firstn nonceSize m
                           | _ => []
                           end)) in Ha.
  cbv beta iota in Ha. rewrite !firstn_message in Ha.
  apply PutUint64_inj in Ha; unfold Uint64.in_range; lia.
Qed.

(** X9. In-order delivery round trip. When the receiver's cipher,
    decrypting into a nil slice, gives back what the sender's cipher
    encrypted, the receive counter equals the sender's send counter and
    the run does not wrap the counter, feeding the messages of a run of
    [EncryptUnsafe] calls, in order, to [DecryptUnsafe] returns the
    plaintexts, each with a nil error. An empty plaintext comes back as
    the nil slice: that call returns nil and nil, the pair a rejected
    message gets. *)
Theorem in_order_round_trip (sender receiver : Noise) (cs cr : CipherState)
    (plaintexts : list bytes) :
  enc sender = Some cs ->
  dec receiver = Some cr ->
  (forall n p,
      Decrypt (CipherState_Cipher cr) [] n []
        (Encrypt (CipherState_Cipher cs) [] n [] p)
      = (appended_to_nil p, None)) ->
  0 <= encNonce sender ->
  decNonce receiver = encNonce sender ->
  encNonce sender + Z.of_nat (List.length plaintexts) < Uint64.modulus ->
  snd (decrypt_all receiver (returned (snd (encrypt_all sender plaintexts))))
  = map (fun p => Returns (appended_to_nil p, None)) plaintexts.
Proof.
  intros He Hd Hcipher. revert sender receiver He Hd.
  induction plaintexts as [| p rest IH]; intros sender receiver He Hd Hlo Hsync Hhi;
    [reflexivity |].
  cbn [List.length] in Hhi.
  assert (Hs : Uint64.in_range (encNonce sender))
    by (unfold Uint64.in_range; lia).
  assert (Hn : Uint64.in_range (encNonce sender + 1))
    by (unfold Uint64.in_range; lia).
  rewrite encrypt_all_cons. cbn [snd].
  rewrite (EncryptUnsafe_transport sender cs p He). cbn [fst snd].
  rewrite (Uint64Facts.wrap_small _ Hn).
  rewrite returned_cons, decrypt_all_cons. cbn [snd map]. f_equal.
  - rewrite (DecryptUnsafe_accepts receiver cr _ _ Hn)
      by (rewrite ?Hsync; assumption).
    rewrite Hsync.
    replace (encNonce sender + 1 <=? encNonce sender) with false
      by (symmetry; apply Z.leb_gt; lia).
    now rewrite Hcipher.
  - rewrite DecryptUnsafe_fst_framed
      by (rewrite length_app, PutUint64_length; lia).
    rewrite Hsync, (Uint64Facts.wrap_small _ Hn).
    apply IH; cbn [set_encNonce set_decNonce enc dec encNonce decNonce];
      try assumption; try reflexivity; lia.
Qed.

Lemma call_in_between_rejects_next_aux (ns : Noise) (m payload : bytes) :
  Uint64.in_range (decNonce ns) ->
  decNonce ns + 1 < Uint64.modulus ->
  (8 <= List.length m)%nat ->
  snd (DecryptUnsafe (fst (DecryptUnsafe ns m))
         (PutUint64 (decNonce ns + 1) ++ payload))
  = Returns (None, None).
Proof.
  intros Hr Hfit Hlen.
  assert (Hn : Uint64.in_range (decNonce ns + 1))
    by (unfold Uint64.in_range in *; lia).
  rewrite (DecryptUnsafe_fst_framed ns m Hlen).
  rewrite (DecryptUnsafe_message _ _ payload Hn). unfold decrypt_long.
  cbn [set_decNonce decNonce].
  rewrite (Uint64Facts.wrap_small _ Hn), (wrap_pred_succ _ Hn).
  now rewrite Z.leb_refl.
Qed.

(** X14. Every call on an input of eight bytes or more uses up one
    counter value: after one such call, whatever the input was and
    whatever came of it, the message that carries the counter that was
    next in order before the call is rejected. *)
Theorem call_in_between_rejects_next (ns : Noise) (m payload : bytes) :
  Uint64.in_range (decNonce ns) ->
  decNonce ns + 1 < Uint64.modulus ->
  (8 <= List.length m)%nat ->
  snd (DecryptUnsafe (fst (DecryptUnsafe ns m))
         (PutUint64 (decNonce ns + 1) ++ payload))
  = Returns (None, None).
Proof. apply call_in_between_rejects_next_aux. Qed.

(** X15. Two neighbouring messages swapped on the way: with the receive
    counter at [d], the message carrying [d + 2] is handed to the cipher,
    and the message carrying [d + 1], decrypted after it, is rejected with
    nil and nil. *)
Theorem swapped_neighbours (ns : Noise) (cs : CipherState)
    (first second : bytes) :
  dec ns = Some cs ->
  Uint64.in_range (decNonce ns) ->
  decNonce ns + 2 < Uint64.modulus ->
  snd (decrypt_all ns [PutUint64 (decNonce ns + 2) ++ second;
                       PutUint64 (decNonce ns + 1) ++ first])
  = [Returns (Decrypt (CipherState_Cipher cs) [] (decNonce ns + 2) [] second);
     Returns (None, None)].
Proof.
  intros Hcs Hr Hfit.
  assert (H2 : Uint64.in_range (decNonce ns + 2))
    by (unfold Uint64.in_range in *; lia).
  rewrite !decrypt_all_cons. cbn [fst snd decrypt_all]. f_equal.
  - rewrite (DecryptUnsafe_accepts ns cs _ second H2 Hr Hcs).
    replace (decNonce ns + 2 <=? decNonce ns) with false
      by (symmetry; apply Z.leb_gt; lia).
    reflexivity.
  - f_equal. apply call_in_between_rejects_next_aux; try assumption.
    + unfold Uint64.in_range in *. lia.
    + rewrite length_app, PutUint64_length. lia.
Qed.

End TransportFacts.

(** ** Further properties of construction and handshake *)

Section HandshakeFacts.

Context {K : CipherPkg} {L : NoiseLib}.

Lemma handshake_step_frame (ns : Noise) (c : handshake_call) :
  encNonce (handshake_step ns c) = encNonce ns
  /\ decNonce (handshake_step ns c) = decNonce ns
  /\ pk (handshake_step ns c) = pk ns
  /\ pattern (handshake_step ns c) = pattern ns
  /\ init (handshake_step ns c) = init ns.
Proof.
  destruct c as [| msg]; unfold handshake_step, HandshakeMessage, ProcessMessage.
  - destruct (MessageIndex (hs ns) <? last_message_index ns),
      (WriteMessage (hs ns) [] []); cbn; repeat split.
  - destruct (MessageIndex (hs ns) <? last_message_index ns),
      (ReadMessage (hs ns) [] msg); cbn; repeat split.
Qed.

Lemma handshake_run_frame (calls : list handshake_call) : forall ns : Noise,
  encNonce (handshake_run ns calls) = encNonce ns
  /\ decNonce (handshake_run ns calls) = decNonce ns
  /\ pk (handshake_run ns calls) = pk ns
  /\ pattern (handshake_run ns calls) = pattern ns
  /\ init (handshake_run ns calls) = init ns.
Proof.
  induction calls as [| c rest IH]; intros ns; [cbn; repeat split |].
  cbn [handshake_run fold_left]. fold (handshake_run (handshake_step ns c) rest).
  destruct (IH (handshake_step ns c)) as (A & B & C & D & E).
  destruct (handshake_step_frame ns c) as (A' & B' & C' & D' & E').
  repeat split; congruence.
Qed.

Lemma New_fields (pat : HandshakePattern) (config : Config) (ns : Noise) :
  New pat config = (Some ns, None) ->
  enc ns = None /\ dec ns = None /\ encNonce ns = 0 /\ decNonce ns = 0
  /\ pk ns = LocalPK config /\ pattern ns = pat /\ init ns = Initiator config.
Proof.
  unfold New. destruct (NewHandshakeState _ _ _ _ _); [| discriminate].
  intros E. injection E as <-. cbn. repeat split.
Qed.

(** X10. A channel that [New] built keeps both sequence counters at zero,
    its local static key, its pattern and its role through any sequence of
    [HandshakeMessage] and [ProcessMessage] calls, failed ones included:
    the counters are zero when transport starts. *)
Theorem handshake_keeps_counters_zero (pat : HandshakePattern)
    (config : Config) (ns : Noise) (calls : list handshake_call) :
  New pat config = (Some ns, None) ->
  encNonce (handshake_run ns calls) = 0
  /\ decNonce (handshake_run ns calls) = 0
  /\ LocalStatic (handshake_run ns calls) = LocalPK config
  /\ pattern (handshake_run ns calls) = pat
  /\ init (handshake_run ns calls) = Initiator config.
Proof.
  intros Hnew.
  destruct (New_fields pat config ns Hnew) as (_ & _ & A & B & C & D & E).
  destruct (handshake_run_frame calls ns) as (A' & B' & C' & D' & E').
  unfold LocalStatic. repeat split; congruence.
Qed.

(** X11. On a channel fresh from [New] the transport operations have no
    cipher state to work with: [EncryptUnsafe] panics on the nil send
    state, after it has already moved the send counter to 1, and
    [DecryptUnsafe] panics on the nil receive state for every message
    whose counter is above zero, after it has moved the receive counter
    to 1. *)
Theorem transport_before_handshake_panics (pat : HandshakePattern)
    (config : Config) (ns : Noise) (text payload : bytes) (n : Z) :
  New pat config = (Some ns, None) ->
  0 < n < Uint64.modulus ->
  EncryptUnsafe ns text = (set_encNonce ns 1, Panics nil_dereference)
  /\ DecryptUnsafe ns (PutUint64 n ++ payload)
     = (set_decNonce ns 1, Panics nil_dereference).
Proof.
  intros Hnew Hn.
  destruct (New_fields pat config ns Hnew) as (He & Hd & A & B & _).
  split.
  - unfold EncryptUnsafe, AddUint64. rewrite A. cbn [set_encNonce enc].
    now rewrite He.
  - rewrite DecryptUnsafe_message by (unfold Uint64.in_range; lia).
    unfold decrypt_long. rewrite B, Hd.
    change (Uint64.wrap (0 + 1)) with 1. change (Uint64.wrap (1 - 1)) with 0.
    replace (n <=? 0) with false by (symmetry; apply Z.leb_gt; lia).
    reflexivity.
Qed.

(** X12. From the pattern's last message on, so also on a channel whose
    handshake is finished, [HandshakeMessage] and [ProcessMessage] assign
    the cipher states the handshake state hands back without looking at
    the error. When it hands back none, the call returns the handshake
    state's error and leaves the channel with neither cipher state,
    whatever it held before, and the next [EncryptUnsafe] panics. *)
Theorem handshake_failure_clears_cipher_states (ns : Noise)
    (msg text : bytes) :
  last_message_index ns <= MessageIndex (hs ns) ->
  (mr_cs1 (snd (WriteMessage (hs ns) [] [])) = None ->
   mr_cs2 (snd (WriteMessage (hs ns) [] [])) = None ->
   enc (fst (HandshakeMessage ns)) = None
   /\ dec (fst (HandshakeMessage ns)) = None
   /\ snd (snd (HandshakeMessage ns)) = mr_err (snd (WriteMessage (hs ns) [] []))
   /\ snd (EncryptUnsafe (fst (HandshakeMessage ns)) text)
      = Panics nil_dereference)
  /\ (mr_cs1 (snd (ReadMessage (hs ns) [] msg)) = None ->
      mr_cs2 (snd (ReadMessage (hs ns) [] msg)) = None ->
      enc (fst (ProcessMessage ns msg)) = None
      /\ dec (fst (ProcessMessage ns msg)) = None
      /\ snd (ProcessMessage ns msg) = mr_err (snd (ReadMessage (hs ns) [] msg))
      /\ snd (EncryptUnsafe (fst (ProcessMessage ns msg)) text)
         = Panics nil_dereference).
Proof.
  intros Hlast.
  assert (Hb : (MessageIndex (hs ns) <? last_message_index ns) = false)
    by (apply Z.ltb_ge; exact Hlast).
  unfold HandshakeMessage, ProcessMessage. rewrite Hb.
  split.
  - destruct (WriteMessage (hs ns) [] []) as [h r]. cbn [fst snd].
    intros H1 H2. cbn [set_enc set_dec set_hs enc dec].
    repeat split; try assumption.
    unfold EncryptUnsafe, AddUint64. cbn [set_encNonce set_enc enc].
    now rewrite H2.
  - destruct (ReadMessage (hs ns) [] msg) as [h r]. cbn [fst snd].
    intros H1 H2. cbn [set_enc set_dec set_hs enc dec].
    repeat split; try assumption.
    unfold EncryptUnsafe, AddUint64. cbn [set_encNonce set_enc set_dec enc].
    now rewrite H1.
Qed.

(** X13. [EncryptUnsafe] and [DecryptUnsafe] change nothing that the
    handshake accessors look at: [HandshakeFinished], [LocalStatic] and
    [RemoteStatic] give the same answers after either call as before. *)
Theorem transport_preserves_accessors (ns : Noise) (text : bytes) :
  (HandshakeFinished (fst (EncryptUnsafe ns text)) = HandshakeFinished ns
   /\ LocalStatic (fst (EncryptUnsafe ns text)) = LocalStatic ns
   /\ RemoteStatic (fst (EncryptUnsafe ns text)) = RemoteStatic ns)
  /\ (HandshakeFinished (fst (DecryptUnsafe ns text)) = HandshakeFinished ns
      /\ LocalStatic (fst (DecryptUnsafe ns text)) = LocalStatic ns
      /\ RemoteStatic (fst (DecryptUnsafe ns text)) = RemoteStatic ns).
Proof.
  destruct (EncryptUnsafe_frame ns text) as (_ & Fe & _).
  destruct (DecryptUnsafe_frame ns text) as (_ & Fd & _).
  unfold fixed_part in Fe, Fd.
  injection Fe as Pk _ _ Pat Hs. injection Fd as Pk' _ _ Pat' Hs'.
  unfold HandshakeFinished, LocalStatic, RemoteStatic.
  rewrite Pk, Pat, Hs, Pk', Pat', Hs'. repeat split.
Qed.

(** C9, as the code has it. [RemoteStatic] returns the pinned or
    negotiated remote static key once the handshake state holds it, and
    panics with the error of [NewPubKey] when the handshake state holds
    none yet: it has no error to return. For a channel that [New] built
    on packages where a handshake state starts with the peer key it was
    given and [NewPubKey] rejects the empty slice with [e]:
    - with a remote key in the configuration that is not null, the key is
      pinned and [RemoteStatic] returns it from the start;
    - with the null key, [New] passes no peer key on and [RemoteStatic]
      panics with [e];
    - after any handshake calls, [RemoteStatic] returns the key the
      handshake state then holds, and panics with [e] while it holds
      none. *)
Theorem RemoteStatic_revealed_or_panics (pat : HandshakePattern)
    (config : Config) (ns : Noise) (calls : list handshake_call) (e : error) :
  New pat config = (Some ns, None) ->
  keeps_given_peer_key ->
  snd (NewPubKey []) = Some e ->
  (PubKey_Null (RemotePK config) = false ->
   well_formed_key (RemotePK config) ->
   holds_peer_key ns (RemotePK config)
   /\ RemoteStatic ns = Returns (RemotePK config))
  /\ (PubKey_Null (RemotePK config) = true ->
      holds_no_peer_key ns
      /\ RemoteStatic ns = Panics (PanicError e))
  /\ (forall key,
        holds_peer_key (handshake_run ns calls) key ->
        well_formed_key key ->
        RemoteStatic (handshake_run ns calls) = Returns key)
  /\ (holds_no_peer_key (handshake_run ns calls) ->
      RemoteStatic (handshake_run ns calls) = Panics (PanicError e)).
Proof.
  intros Hnew Hlib Hnil.
  assert (Hpanic : forall a : Noise,
             holds_no_peer_key a -> RemoteStatic a = Panics (PanicError e)).
  { intros a Ha. unfold holds_no_peer_key in Ha.
    destruct (NewPubKey []) as [junk err] eqn:E. cbn [snd] in Hnil. subst err.
    apply (proj2 (RemoteStatic_outcome a) junk e). now rewrite Ha. }
  assert (Hreturn : forall (a : Noise) key,
             holds_peer_key a key -> well_formed_key key ->
             RemoteStatic a = Returns key).
  { intros a key Ha Hkey. unfold holds_peer_key in Ha.
    apply (proj1 (RemoteStatic_outcome a) key). now rewrite Ha. }
  assert (Hpeer : PeerStatic (hs ns)
                  = if negb (PubKey_Null (RemotePK config))
                    then PubKey_bytes (RemotePK config) else []).
  { unfold New in Hnew.
    destruct (NewHandshakeState pat (Initiator config)
                (PubKey_bytes (LocalPK config)) (SecKey_bytes (LocalSK config))
                (if negb (PubKey_Null (RemotePK config))
                 then Some (PubKey_bytes (RemotePK config)) else None))
      as [h | err] eqn:E; [| discriminate].
    injection Hnew as <-. cbn [hs].
    rewrite (Hlib _ _ _ _ _ _ E).
    now destruct (PubKey_Null (RemotePK config)). }
  repeat split.
  - unfold holds_peer_key. rewrite Hpeer. now rewrite H.
  - apply Hreturn; [| assumption].
    unfold holds_peer_key. rewrite Hpeer. now rewrite H.
  - unfold holds_no_peer_key. rewrite Hpeer. now rewrite H.
  - apply Hpanic. unfold holds_no_peer_key. rewrite Hpeer. now rewrite H.
  - intros key Hk Hw. now apply Hreturn.
  - intros Hn. now apply Hpanic.
Qed.

End HandshakeFacts.

(** ** The further properties on concrete channels *)

(** The stand-in cipher opens what it sealed. *)
Lemma Standin_open_seal (key n : Z) (p : bytes) :
  Standin.open key [] n [] (Standin.seal key [] n [] p) = (Some p, None).
Proof.
  unfold Standin.open, Standin.seal. cbn [app].
  rewrite rev_app_distr. cbn [rev app].
  rewrite (Stdlib.Strings.Byte.byte_dec_lb eq_refl).
  now rewrite rev_involutive.
Qed.

Lemma EncryptUnsafe_wire_format_witness :
  exists m,
    snd (EncryptUnsafe Standin.sender (Standin.text "a")) = Returns m
    /\ embedded_counter m = Some 1.
Proof.
  destruct (EncryptUnsafe_wire_format Standin.sender 7 (Standin.text "a"))
    as (m & Hm & Hc & _).
  - reflexivity.
  - exists m. split; [exact Hm | exact Hc].
Defined.

Lemma DecryptUnsafe_decision_witness :
  DecryptUnsafe Standin.receiver (Standin.message 3)
  = (set_decNonce Standin.receiver 1, Returns (Some (Standin.text "c"), None)).
Proof.
  apply (DecryptUnsafe_decision Standin.receiver 7 (Standin.message 3) 3).
  - reflexivity.
  - unfold Uint64.in_range, Uint64.modulus. simpl. lia.
  - vm_compute. lia.
  - reflexivity.
Defined.

Lemma decrypt_all_counts_calls_witness :
  decNonce (fst (decrypt_all Standin.receiver
                   [Standin.message 5; []; Standin.message 3; Standin.message 3]))
  = 3.
Proof.
  apply (decrypt_all_counts_calls Standin.receiver
           [Standin.message 5; []; Standin.message 3; Standin.message 3]).
  - unfold Uint64.in_range, Uint64.modulus. simpl. lia.
  - constructor; [right; vm_compute; lia |].
    constructor; [left; reflexivity |].
    constructor; [right; vm_compute; lia |].
    constructor; [right; vm_compute; lia | constructor].
Defined.

Lemma rejected_stays_rejected_witness :
  snd (DecryptUnsafe
         (fst (decrypt_all Standin.receiver_at_two [Standin.message 5]))
         (Standin.message 2))
  = Returns (None, None).
Proof.
  apply (rejected_stays_rejected Standin.receiver_at_two [Standin.message 5] 2
           (Standin.seal 7 [] 2 [] (Standin.text "b"))).
  - unfold Uint64.in_range, Uint64.modulus. simpl. lia.
  - constructor; [right; vm_compute; lia | constructor].
  - unfold Uint64.modulus. simpl. lia.
  - simpl. lia.
Defined.

Lemma in_order_message_accepted_once_witness :
  snd (DecryptUnsafe Standin.receiver (Standin.message 1))
  = Returns (Some (Standin.text "a"), None)
  /\ snd (DecryptUnsafe
            (fst (decrypt_all
                    (fst (DecryptUnsafe Standin.receiver (Standin.message 1)))
                    [Standin.message 3]))
            (Standin.message 1))
     = Returns (None, None).
Proof.
  apply (in_order_message_accepted_once Standin.receiver 7 [Standin.message 3]
           (Standin.seal 7 [] 1 [] (Standin.text "a"))).
  - reflexivity.
  - unfold Uint64.in_range, Uint64.modulus. simpl. lia.
  - constructor; [right; vm_compute; lia | constructor].
  - unfold Uint64.modulus. simpl. lia.
Defined.

Lemma EncryptUnsafe_wraps_witness :
  EncryptUnsafe Standin.sender_at_top (Standin.text "a")
  = (set_encNonce Standin.sender_at_top 0,
     Returns (PutUint64 0 ++ Standin.seal 7 [] 0 [] (Standin.text "a"))).
Proof.
  apply (EncryptUnsafe_wraps Standin.sender_at_top Standin.receiver 7
           (Standin.text "a")); reflexivity.
Defined.

Lemma EncryptUnsafe_messages_distinct_witness :
  Returns (PutUint64 1 ++ Standin.seal 7 [] 1 [] (Standin.text "a"))
  <> Returns (PutUint64 2 ++ Standin.seal 7 [] 2 [] (Standin.text "a")).
Proof.
  apply (EncryptUnsafe_messages_distinct Standin.sender 7
           [Standin.text "a"; Standin.text "a"] 0 1).
  - reflexivity.
  - simpl. lia.
  - unfold Uint64.modulus. simpl. lia.
  - lia.
  - reflexivity.
  - reflexivity.
Defined.

(** The nil-returning stand-in cipher opens what it sealed. *)
Lemma Standin_open_to_nil_seal (key n : Z) (p : bytes) :
  Standin.open_to_nil key [] n [] (Standin.seal key [] n [] p)
  = (appended_to_nil p, None).
Proof.
  unfold Standin.open_to_nil, Standin.seal. cbn [app].
  rewrite rev_app_distr. cbn [rev app].
  rewrite (Stdlib.Strings.Byte.byte_dec_lb eq_refl).
  now rewrite rev_involutive.
Qed.

Lemma in_order_round_trip_witness :
  snd (decrypt_all Standin.receiver_nil
         (returned (snd (encrypt_all Standin.sender_nil
                           Standin.plaintexts_with_empty))))
  = [Returns (Some (Standin.text "a"), None); Returns (None, None);
     Returns (Some (Standin.text "b"), None)].
Proof.
  apply (in_order_round_trip Standin.sender_nil Standin.receiver_nil 7 7
           Standin.plaintexts_with_empty).
  - reflexivity.
  - reflexivity.
  - intros n p. apply Standin_open_to_nil_seal.
  - simpl. lia.
  - reflexivity.
  - unfold Uint64.modulus. simpl. lia.
Defined.

Lemma handshake_keeps_counters_zero_witness :
  encNonce (handshake_run Standin.fresh_initiator [Produce; Consume []; Produce]) = 0
  /\ decNonce (handshake_run Standin.fresh_initiator [Produce; Consume []; Produce]) = 0.
Proof.
  destruct (handshake_keeps_counters_zero HandshakeKK (Standin.config true)
              Standin.fresh_initiator [Produce; Consume []; Produce])
    as (He & Hd & _).
  - reflexivity.
  - split; [exact He | exact Hd].
Defined.

Lemma transport_before_handshake_panics_witness :
  EncryptUnsafe Standin.fresh_initiator (Standin.text "a")
  = (set_encNonce Standin.fresh_initiator 1, Panics nil_dereference)
  /\ DecryptUnsafe Standin.fresh_initiator (Standin.message 1)
     = (set_decNonce Standin.fresh_initiator 1, Panics nil_dereference).
Proof.
  apply (transport_before_handshake_panics HandshakeKK (Standin.config true)
           Standin.fresh_initiator (Standin.text "a")
           (Standin.seal 7 [] 1 [] (Standin.text "a")) 1).
  - reflexivity.
  - unfold Uint64.modulus. simpl. lia.
Defined.

Lemma handshake_failure_clears_cipher_states_witness :
  enc Standin.sender = Some 7
  /\ enc (fst (HandshakeMessage Standin.sender)) = None
  /\ snd (snd (HandshakeMessage Standin.sender))
     = Some "noise: no handshake messages left"%string
  /\ snd (EncryptUnsafe (fst (HandshakeMessage Standin.sender)) (Standin.text "a"))
     = Panics nil_dereference.
Proof.
  destruct (handshake_failure_clears_cipher_states Standin.sender []
              (Standin.text "a")) as [Hproduce _].
  - vm_compute. discriminate.
  - destruct Hproduce as (He & _ & Herr & Hpanic); [reflexivity .. |].
    split; [reflexivity |].
    split; [exact He |]. split; [exact Herr | exact Hpanic].
Defined.

Lemma call_in_between_rejects_next_witness :
  snd (DecryptUnsafe (fst (DecryptUnsafe Standin.receiver (Standin.message 1)))
         (Standin.message 1))
  = Returns (None, None).
Proof.
  apply (call_in_between_rejects_next Standin.receiver (Standin.message 1)
           (Standin.seal 7 [] 1 [] (Standin.text "a"))).
  - unfold Uint64.in_range, Uint64.modulus. simpl. lia.
  - unfold Uint64.modulus. simpl. lia.
  - vm_compute. lia.
Defined.

Lemma swapped_neighbours_witness :
  snd (decrypt_all Standin.receiver_at_two [Standin.message 4; Standin.message 3])
  = [Returns (Some (Standin.text "d"), None); Returns (None, None)].
Proof.
  apply (swapped_neighbours Standin.receiver_at_two 7
           (Standin.seal 7 [] 3 [] (Standin.text "c"))
           (Standin.seal 7 [] 4 [] (Standin.text "d"))).
  - reflexivity.
  - unfold Uint64.in_range, Uint64.modulus. simpl. lia.
  - unfold Uint64.modulus. simpl. lia.
Defined.

(** The stand-in handshake state starts with the peer key it is given. *)
Lemma Standin_keeps_given_peer_key : keeps_given_peer_key (L := Standin.lib).
Proof.
  intros pat initiator public private peer h E.
  cbn in E. unfold Standin.start in E. injection E as <-. reflexivity.
Qed.

Lemma RemoteStatic_revealed_or_panics_witness :
  RemoteStatic Standin.fresh_initiator = Returns Standin.remote_key
  /\ RemoteStatic Standin.unpinned
     = Panics (PanicError "Invalid public key length"%string)
  /\ RemoteStatic (handshake_run Standin.fresh_initiator [Produce; Consume []])
     = Returns Standin.remote_key.
Proof.
  destruct (RemoteStatic_revealed_or_panics HandshakeKK (Standin.config true)
              Standin.fresh_initiator [Produce; Consume []]
              "Invalid public key length"%string)
    as (Hpinned & _ & Hafter & _);
    [reflexivity | exact Standin_keeps_given_peer_key | reflexivity |].
  destruct (RemoteStatic_revealed_or_panics HandshakeXK Standin.unpinned_config
              Standin.unpinned [] "Invalid public key length"%string)
    as (_ & Hnull & _);
    [reflexivity | exact Standin_keeps_given_peer_key | reflexivity |].
  destruct Hpinned as [_ Hpinned]; [reflexivity | reflexivity |].
  destruct Hnull as [_ Hnull]; [reflexivity |].
  split; [exact Hpinned |]. split; [exact Hnull |].
  apply (Hafter Standin.remote_key); reflexivity.
Defined.
